(** * Taichi: GGUI helpers ([python/taichi/ui/utils.py]) and the field
      layout contract exercised by [tests/python/test_indices.py].

    The development has these parts:
    - [Py]: outcomes of Python computations (a value or a raised exception)
      with the [try]/[except] discipline the sources rely on;
    - [Utils]: [get_field_info], [try_get_wheel_tag],
      [try_get_loaded_libc_version] and [check_ggui_availability];
    - [Indices]: storage-node chains, [physical_index_position], addresses
      and element reads and writes, as [test_indices] uses them;
    - [Typed]: the conversion of a stored value to the element type;
    - [Heap]: [get_field_info] over a store of objects, where the
      descriptor is an object the function creates and assigns to.

    Definitions come first; the facts proved about them follow. *)

From Stdlib Require Import ZArith List String Ascii Lia Bool.
From stdpp Require Import base option list strings gmap pretty.

Open Scope Z_scope.

(* ===================================================================== *)
(** * Python outcomes *)
(* ===================================================================== *)

Module Py.

(** The exception classes the sources name or can meet.  Every class here
    derives from [Exception]; signals that derive from [BaseException]
    only ([KeyboardInterrupt], [SystemExit]) are asynchronous or process
    level and are not outcomes of the calls modelled below. *)
Inductive ExcClass : Set :=
| Exception
| GGUINotAvailableException
| ImportError
| ModuleNotFoundError
| AssertionError
| OSError
| ValueError
| AttributeError
| IndexError
| TypeError
| StopIteration
| OtherException (name : string).

#[global] Instance ExcClass_eq_dec : EqDecision ExcClass.
Proof. solve_decision. Defined.

(** [issubclass c d]: [ModuleNotFoundError] derives from [ImportError], and
    everything derives from [Exception]. *)
Definition issubclass (c d : ExcClass) : bool :=
  match d with
  | Exception => true
  | ImportError =>
      match c with
      | ImportError | ModuleNotFoundError => true
      | _ => false
      end
  | _ => bool_decide (c = d)
  end.

Record PyExc : Set := mkExc { exc_class : ExcClass; exc_msg : string }.

#[global] Instance PyExc_eq_dec : EqDecision PyExc.
Proof. solve_decision. Defined.

Definition isinstance (e : PyExc) (c : ExcClass) : bool :=
  issubclass (exc_class e) c.

(** The outcome of evaluating a Python expression or statement list. *)
Inductive Res (A : Type) : Type :=
| Ret (a : A)
| Raise (e : PyExc).
Arguments Ret {A} a.
Arguments Raise {A} e.

#[global] Instance Res_ret : MRet Res := @Ret.
#[global] Instance Res_bind : MBind Res := fun A B f m =>
  match m with
  | Ret a => f a
  | Raise e => Raise e
  end.

(** The [except] clauses of a [try] statement, in source order: the first
    clause whose class the exception is an instance of handles it, and an
    exception no clause matches keeps propagating.  What a handler raises
    is not offered to the clauses after it. *)
Fixpoint dispatch {A} (clauses : list (ExcClass * (PyExc -> Res A)))
    (e : PyExc) : Res A :=
  match clauses with
  | [] => Raise e
  | (c, handler) :: rest =>
      if isinstance e c then handler e else dispatch rest e
  end.

(** [try: body / except c1: h1 / except c2: h2 ...] *)
Definition try_clauses {A} (body : Res A)
    (clauses : list (ExcClass * (PyExc -> Res A))) : Res A :=
  match body with
  | Ret a => Ret a
  | Raise e => dispatch clauses e
  end.

(** A [try] with a single [except] clause. *)
Definition try_except {A} (body : Res A) (c : ExcClass)
    (handler : PyExc -> Res A) : Res A :=
  try_clauses body [(c, handler)].

Definition returns {A} (r : Res A) : Prop := exists a, r = Ret a.

Definition raises {A} (r : Res A) (c : ExcClass) : Prop :=
  exists e, r = Raise e /\ isinstance e c = true.

(** [for v in xs: ...] building a list, stopping at the first raise. *)
Fixpoint list_comprehension {A B} (f : A -> Res B) (xs : list A)
    : Res (list B) :=
  match xs with
  | [] => Ret []
  | x :: xs' =>
      y ← f x;
      ys ← list_comprehension f xs';
      Ret (y :: ys)
  end.

(** [next(it)] on an iterator over [xs]. *)
Definition next {A} (xs : list A) : Res A :=
  match xs with
  | x :: _ => Ret x
  | [] => Raise (mkExc StopIteration "")
  end.

(** Comparison [<] of tuples of integers: the first differing position
    decides, and a proper prefix is smaller. *)
Fixpoint tuple_lt (xs ys : list Z) : bool :=
  match xs, ys with
  | [], [] => false
  | [], _ :: _ => true
  | _ :: _, [] => false
  | x :: xs', y :: ys' =>
      if bool_decide (x = y) then tuple_lt xs' ys' else bool_decide (x < y)
  end.

End Py.

Import Py.

(* ===================================================================== *)
(** * [python/taichi/ui/utils.py] *)
(* ===================================================================== *)

Module Utils.

(** ** Native enumerations

    [_ti_core] is the native extension module; its enumerations are
    declared outside the Python sources.  Each is modelled by the members
    the sources name plus a tagged remainder for all other members. *)

(** [default_cfg().arch] *)
Inductive Arch : Set :=
| cuda
| x64
| arm64
| vulkan
| other_arch (tag : nat).

#[global] Instance Arch_eq_dec : EqDecision Arch.
Proof. solve_decision. Defined.

(** [_ti_core.FieldSource] *)
Inductive FieldSource : Set :=
| TaichiCuda
| TaichiX64
| TaichiVulkan
| other_source (tag : nat).

#[global] Instance FieldSource_eq_dec : EqDecision FieldSource.
Proof. solve_decision. Defined.

(** [_ti_core.FieldType] *)
Inductive FieldType : Set :=
| Matrix
| Scalar.

#[global] Instance FieldType_eq_dec : EqDecision FieldType.
Proof. solve_decision. Defined.

(** Element types of fields: the ones the sources name, and the rest. *)
Inductive DataType : Set :=
| f32
| i32
| u64
| other_dtype (name : string).

#[global] Instance DataType_eq_dec : EqDecision DataType.
Proof. solve_decision. Defined.

(** ** Fields and descriptors *)

(** What [get_field_info] reads from a field object.  The attributes
    [shape], [dtype] and [snode.ptr] exist on every field; [n] and [m]
    exist on matrix fields only, so each is optional here and reading an
    absent one raises [AttributeError]. *)
Record Field : Set := {
  shape : list Z;
  dtype : DataType;
  snode_ptr : Z;
  n : option Z;
  m : option Z
}.

(** [_ti_core.FieldInfo]: an object with assignable properties. *)
Record FieldInfo : Set := {
  valid : bool;
  field_source : FieldSource;
  info_shape : list Z;
  info_dtype : DataType;
  info_snode : Z;
  field_type : FieldType;
  matrix_rows : Z;
  matrix_cols : Z
}.

#[global] Instance FieldInfo_eq_dec : EqDecision FieldInfo.
Proof. solve_decision. Defined.

Definition set_valid (b : bool) (i : FieldInfo) : FieldInfo :=
  {| valid := b; field_source := field_source i;
     info_shape := info_shape i; info_dtype := info_dtype i;
     info_snode := info_snode i; field_type := field_type i;
     matrix_rows := matrix_rows i; matrix_cols := matrix_cols i |}.

Definition set_field_source (s : FieldSource) (i : FieldInfo) : FieldInfo :=
  {| valid := valid i; field_source := s;
     info_shape := info_shape i; info_dtype := info_dtype i;
     info_snode := info_snode i; field_type := field_type i;
     matrix_rows := matrix_rows i; matrix_cols := matrix_cols i |}.

Definition set_shape (s : list Z) (i : FieldInfo) : FieldInfo :=
  {| valid := valid i; field_source := field_source i;
     info_shape := s; info_dtype := info_dtype i;
     info_snode := info_snode i; field_type := field_type i;
     matrix_rows := matrix_rows i; matrix_cols := matrix_cols i |}.

Definition set_dtype (d : DataType) (i : FieldInfo) : FieldInfo :=
  {| valid := valid i; field_source := field_source i;
     info_shape := info_shape i; info_dtype := d;
     info_snode := info_snode i; field_type := field_type i;
     matrix_rows := matrix_rows i; matrix_cols := matrix_cols i |}.

Definition set_snode (p : Z) (i : FieldInfo) : FieldInfo :=
  {| valid := valid i; field_source := field_source i;
     info_shape := info_shape i; info_dtype := info_dtype i;
     info_snode := p; field_type := field_type i;
     matrix_rows := matrix_rows i; matrix_cols := matrix_cols i |}.

Definition set_field_type (t : FieldType) (i : FieldInfo) : FieldInfo :=
  {| valid := valid i; field_source := field_source i;
     info_shape := info_shape i; info_dtype := info_dtype i;
     info_snode := info_snode i; field_type := t;
     matrix_rows := matrix_rows i; matrix_cols := matrix_cols i |}.

Definition set_matrix_rows (r : Z) (i : FieldInfo) : FieldInfo :=
  {| valid := valid i; field_source := field_source i;
     info_shape := info_shape i; info_dtype := info_dtype i;
     info_snode := info_snode i; field_type := field_type i;
     matrix_rows := r; matrix_cols := matrix_cols i |}.

Definition set_matrix_cols (c : Z) (i : FieldInfo) : FieldInfo :=
  {| valid := valid i; field_source := field_source i;
     info_shape := info_shape i; info_dtype := info_dtype i;
     info_snode := info_snode i; field_type := field_type i;
     matrix_rows := matrix_rows i; matrix_cols := c |}.

(** ** The runtime [get_field_info] runs in

    [default_cfg()] returns the process-wide compile configuration and
    [_ti_core.FieldInfo()] builds a descriptor with the native defaults.
    Both live outside the sources: the state records the active arch and
    the defaults of a fresh descriptor. *)
Record Runtime : Set := {
  cfg_arch : Arch;
  FieldInfo_defaults : FieldInfo
}.

(** Computations over the runtime that may raise. *)
Definition Cmd (A : Type) : Type := Runtime -> Res A * Runtime.

#[global] Instance Cmd_ret : MRet Cmd := fun A a rt => (Ret a, rt).
#[global] Instance Cmd_bind : MBind Cmd := fun A B f c rt =>
  match c rt with
  | (Ret a, rt') => f a rt'
  | (Raise e, rt') => (Raise e, rt')
  end.

Definition raise {A} (e : PyExc) : Cmd A := fun rt => (Raise e, rt).

(** [default_cfg().arch] *)
Definition default_cfg_arch : Cmd Arch := fun rt => (Ret (cfg_arch rt), rt).

(** [_ti_core.FieldInfo()] *)
Definition new_FieldInfo : Cmd FieldInfo :=
  fun rt => (Ret (FieldInfo_defaults rt), rt).

(** [obj.name] for an optional attribute. *)
Definition getattr {A} (a : option A) (name : string) : Cmd A :=
  match a with
  | Some v => mret v
  | None => raise (mkExc AttributeError name)
  end.

(** [hasattr(obj, name)] *)
Definition hasattr {A} (a : option A) : bool :=
  match a with Some _ => true | None => false end.

(** ** [get_field_info] *)

(** Lines 16-25: the [if]/[elif] chain over [default_cfg().arch]. *)
Definition select_field_source (info : FieldInfo) : Cmd FieldInfo :=
  a1 ← default_cfg_arch;
  if bool_decide (a1 = cuda) then
    mret (set_field_source TaichiCuda info)
  else
    a2 ← default_cfg_arch;
    if bool_decide (a2 = x64) then
      mret (set_field_source TaichiX64 info)
    else
      a3 ← default_cfg_arch;
      if bool_decide (a3 = arm64) then
        mret (set_field_source TaichiX64 info)
      else
        a4 ← default_cfg_arch;
        if bool_decide (a4 = vulkan) then
          mret (set_field_source TaichiVulkan info)
        else
          raise (mkExc Exception "unsupported taichi backend").

(** Lines 31-38: matrix or scalar. *)
Definition select_field_type (field : Field) (info : FieldInfo)
    : Cmd FieldInfo :=
  if hasattr (n field) then
    let info := set_field_type Matrix info in
    rows ← getattr (n field) "n";
    let info := set_matrix_rows rows info in
    cols ← getattr (m field) "m";
    mret (set_matrix_cols cols info)
  else
    let info := set_field_type Scalar info in
    let info := set_matrix_rows 1 info in
    mret (set_matrix_cols 1 info).

Definition get_field_info (field : option Field) : Cmd FieldInfo :=
  info ← new_FieldInfo;
  match field with
  | None => mret (set_valid false info)
  | Some field =>
      let info := set_valid true info in
      info ← select_field_source info;
      let info := set_shape (shape field) info in
      let info := set_dtype (dtype field) info in
      let info := set_snode (snode_ptr field) info in
      select_field_type field info
  end.

(** ** Text helpers

    The diagnosis handles short ASCII texts (a wheel tag, the memory map
    of the process, version numbers); the string operations it uses are
    written out for such texts. *)

(** [sub in s] *)
Fixpoint contains (sub s : string) : bool :=
  String.prefix sub s ||
  match s with
  | EmptyString => false
  | String _ s' => contains sub s'
  end.

(** [str.isspace] on one character: tab to carriage return, the four
    separators 28-31, and the blank. *)
Definition isspace (c : ascii) : bool :=
  let k := nat_of_ascii c in
  ((9 <=? k)%nat && (k <=? 13)%nat) ||
  ((28 <=? k)%nat && (k <=? 32)%nat).

Definition isdigit (c : ascii) : bool :=
  let k := nat_of_ascii c in (48 <=? k)%nat && (k <=? 57)%nat.

Definition digit_value (c : ascii) : Z := Z.of_nat (nat_of_ascii c) - 48.

(** [s.split()]: the maximal runs of non-blank characters.  [cur] is the
    run being read, reversed. *)
Fixpoint split_go (s : string) (cur : list ascii) : list string :=
  let flush (rest : list string) :=
    match cur with
    | [] => rest
    | _ => string_of_list_ascii (rev cur) :: rest
    end in
  match s with
  | EmptyString => flush []
  | String c s' =>
      if isspace c then flush (split_go s' []) else split_go s' (c :: cur)
  end.

Definition split (s : string) : list string := split_go s [].

(** [s.split(sep)] for a one-character separator. *)
Fixpoint split_on (sep : ascii) (s : string) : list string :=
  match s with
  | EmptyString => [EmptyString]
  | String c s' =>
      if bool_decide (c = sep) then EmptyString :: split_on sep s'
      else
        match split_on sep s' with
        | [] => [String c EmptyString]
        | w :: ws => String c w :: ws
        end
  end.

(** The longest prefix of digits, and what follows it. *)
Fixpoint span_digits (s : string) : string * string :=
  match s with
  | String c s' =>
      if isdigit c then
        let '(ds, rest) := span_digits s' in (String c ds, rest)
      else (EmptyString, s)
  | EmptyString => (EmptyString, EmptyString)
  end.

(** A match of [\d+\.\d+] at the start of [s], with the rest of [s]. *)
Definition match_version (s : string) : option (string * string) :=
  let '(d1, r1) := span_digits s in
  match d1, r1 with
  | String _ _, String "."%char r2 =>
      let '(d2, r3) := span_digits r2 in
      match d2 with
      | String _ _ => Some (d1 +:+ "." +:+ d2, r3)
      | EmptyString => None
      end
  | _, _ => None
  end.

(** [re.findall(r'\d+\.\d+', s)]: the matches from left to right, none
    overlapping another.  [fuel] bounds the scan by the length of [s]. *)
Fixpoint findall_version (fuel : nat) (s : string) : list string :=
  match fuel with
  | O => []
  | S fuel' =>
      match match_version s with
      | Some (v, rest) => v :: findall_version fuel' rest
      | None =>
          match s with
          | EmptyString => []
          | String _ s' => findall_version fuel' s'
          end
      end
  end.

Definition re_findall_version (s : string) : list string :=
  findall_version (S (String.length s)) s.

(** The blanks [int] skips around a literal: tab to carriage return and
    the blank.  The separators 28-31, which [str.split] splits on, are not
    among them: [int] rejects a literal that carries one. *)
Definition int_isspace (c : ascii) : bool :=
  let k := nat_of_ascii c in
  ((9 <=? k)%nat && (k <=? 13)%nat) || (k =? 32)%nat.

(** The literal without the blanks before and after it. *)
Fixpoint lstrip (s : string) : string :=
  match s with
  | String c s' => if int_isspace c then lstrip s' else s
  | EmptyString => EmptyString
  end.

Definition rstrip (s : string) : string :=
  string_of_list_ascii
    (rev (list_ascii_of_string
            (lstrip (string_of_list_ascii (rev (list_ascii_of_string s)))))).

Definition strip (s : string) : string := rstrip (lstrip s).

(** The digits of a decimal literal: groups of digits separated by single
    underscores.  [prev] tells whether the previous character was a
    digit. *)
Fixpoint parse_digits (s : string) (acc : Z) (prev : bool) : option Z :=
  match s with
  | EmptyString => if prev then Some acc else None
  | String c s' =>
      if isdigit c then parse_digits s' (10 * acc + digit_value c) true
      else if bool_decide (c = "_"%char) && prev then parse_digits s' acc false
      else None
  end.

(** [int(s)] in base ten. *)
Definition py_int (s : string) : Res Z :=
  let bad := Raise (mkExc ValueError ("invalid literal for int() with base 10: " +:+ s)) in
  match strip s with
  | String "-"%char ds =>
      match parse_digits ds 0 false with
      | Some v => Ret (- v)
      | None => bad
      end
  | String "+"%char ds =>
      match parse_digits ds 0 false with
      | Some v => Ret v
      | None => bad
      end
  | ds =>
      match parse_digits ds 0 false with
      | Some v => Ret v
      | None => bad
      end
  end.

(** Truth value of an optional string ([None] and the empty string are
    false) and of an optional tuple. *)
Definition truthy_str (s : option string) : bool :=
  match s with
  | Some (String _ _) => true
  | _ => false
  end.

Definition truthy_tuple (t : option (list Z)) : bool :=
  match t with
  | Some (_ :: _) => true
  | _ => false
  end.

(** ** The host the diagnosis probes *)

(** A module object: [__path__] and [__version__] (a tuple of
    integers). *)
Record PyModule : Set := {
  mod_path : list string;
  mod_version : list Z
}.

(** Everything [check_ggui_availability] obtains from outside the
    function: the native flag, and the outcome of each import, file read
    and library call. *)
Record Env : Type := {
  GGUI_AVAILABLE : bool;                        (* _ti_core.GGUI_AVAILABLE *)
  platform_system : string;                     (* platform.system() *)
  import_taichi : Res PyModule;                 (* import taichi *)
  import_wheel_metadata : Res unit;             (* import wheel.metadata *)
  read_pkg_info : string -> Res (gmap string string);
                                                (* wheel.metadata.read_pkg_info *)
  read_proc_self_maps : Res string;             (* open(...).read() *)
  import_pip : Res string                       (* import pip; pip.__version__ *)
}.

(** ** [try_get_wheel_tag] *)

(** [module.__path__[0]] *)
Definition first_path (module : PyModule) : Res string :=
  match mod_path module with
  | p :: _ => Ret p
  | [] => Raise (mkExc IndexError "list index out of range")
  end.

(** Lines 71-74, the body of the [try]. *)
Definition wheel_tag_probe (env : Env) (module : PyModule)
    : Res (option string) :=
  _ ← import_wheel_metadata env;
  p ← first_path module;
  let wheel_path :=
    p +:+ "-" +:+ String.concat "." (map pretty (mod_version module))
      +:+ ".dist-info/WHEEL" in
  meta ← read_pkg_info env wheel_path;
  Ret (meta !! "Tag").

Definition try_get_wheel_tag (env : Env) (module : PyModule)
    : Res (option string) :=
  try_except (wheel_tag_probe env module) Exception (fun _ => Ret None).

(** ** [try_get_loaded_libc_version] *)

Definition py_assert (b : bool) : Res unit :=
  if b then Ret tt else Raise (mkExc AssertionError "").

Definition try_get_loaded_libc_version (env : Env) : Res (option (list Z)) :=
  _ ← py_assert (bool_decide (platform_system env = "Linux"));
  content ← read_proc_self_maps env;
  try_except
    (libc_path ← next (filter (fun v => contains "libc-" v = true) (split content));
     let ver := re_findall_version libc_path in
     match ver with
     | [] => Ret None
     | v0 :: _ =>
         t ← list_comprehension py_int (split_on "."%char v0);
         Ret (Some t)
     end)
    StopIteration (fun _ => Ret None).

(** ** [check_ggui_availability] *)

Definition GGUI_error (msg : string) : PyExc :=
  mkExc GGUINotAvailableException msg.

Definition msg_restricted : string :=
  "GGUI is not available since you have installed a restricted version of taichi.".

Definition msg_outdated_os : string :=
  msg_restricted +:+
  " Your OS is outdated, try upgrading to a recent one (e.g. Ubuntu 18.04 or later) if possible.".

Definition msg_outdated_pip (pip_version : string) : string :=
  msg_restricted +:+
  " Your pip (version " +:+ pip_version +:+
  ") is outdated (20.3.0 or later required), " +:+
  "try upgrading pip and install taichi again.".

Definition msg_generic : string := "GGUI is not available.".

(** Lines 118-124, the body of the inner [try]. *)
Definition pip_probe (env : Env) : Res unit :=
  pip_version ← import_pip env;
  ver ← list_comprehension py_int (split_on "."%char pip_version);
  if tuple_lt ver [20; 3; 0] then
    Raise (GGUI_error (msg_outdated_pip pip_version))
  else Ret tt.

(** Lines 106-130, the body of the outer [try]. *)
Definition diagnose (env : Env) : Res unit :=
  taichi ← import_taichi env;
  wheel_tag ← try_get_wheel_tag env taichi;
  if bool_decide (platform_system env = "Linux")
     && truthy_str wheel_tag
     && contains "manylinux2014" (default "" wheel_tag)
  then
    libc_ver ← try_get_loaded_libc_version env;
    if truthy_tuple libc_ver && tuple_lt (default [] libc_ver) [2; 27] then
      Raise (GGUI_error msg_outdated_os)
    else
      _ ← try_except (pip_probe env) ImportError (fun _ => Ret tt);
      Raise (GGUI_error msg_restricted)
  else Ret tt.

Definition check_ggui_availability (env : Env) : Res unit :=
  if GGUI_AVAILABLE env then Ret tt
  else
    _ ← try_clauses (diagnose env)
          [ (GGUINotAvailableException, fun e => Raise e);
            (Exception, fun _ => Ret tt) ];
    Raise (GGUI_error msg_generic).

(** ** Notions used to state the facts below *)

(** The arches the [if]/[elif] chain knows. *)
Definition known_arches : list Arch := [cuda; x64; arm64; vulkan].

(** A field object as Taichi builds them: a matrix field carries both
    [n] and [m], a scalar field neither. *)
Definition matrix_attrs_together (f : Field) : Prop :=
  is_Some (n f) <-> is_Some (m f).

(** A command that leaves the runtime as it found it. *)
Definition read_only {A} (c : Cmd A) : Prop :=
  forall rt, (c rt).2 = rt.

(** The descriptor of a field on a known arch, before the element kind is
    settled. *)
Definition described (rt : Runtime) (src : FieldSource) (field : Field)
    : FieldInfo :=
  set_snode (snode_ptr field)
    (set_dtype (dtype field)
       (set_shape (shape field)
          (set_field_source src
             (set_valid true (FieldInfo_defaults rt))))).

(** Sample inputs: a scalar field, a 3x2 matrix field, and runtimes on an
    x64 host and on a backend the chain does not know. *)
Definition blank_info : FieldInfo :=
  {| valid := false; field_source := TaichiCuda; info_shape := [];
     info_dtype := f32; info_snode := 0; field_type := Scalar;
     matrix_rows := 0; matrix_cols := 0 |}.

Definition scalar_field : Field :=
  {| shape := [128; 32; 8]; dtype := f32; snode_ptr := 4096;
     n := None; m := None |}.

Definition matrix_field : Field :=
  {| shape := [16; 32]; dtype := f32; snode_ptr := 8192;
     n := Some 3; m := Some 2 |}.

Definition x64_runtime : Runtime :=
  {| cfg_arch := x64; FieldInfo_defaults := blank_info |}.

Definition arm64_runtime : Runtime :=
  {| cfg_arch := arm64; FieldInfo_defaults := blank_info |}.

Definition unknown_runtime : Runtime :=
  {| cfg_arch := other_arch 0; FieldInfo_defaults := blank_info |}.

(** The pip probe is reached: the wheel is a manylinux2014 one on Linux
    and the loaded libc, if it could be told, is not older than 2.27. *)
Definition pip_probe_reached (env : Env) : Prop :=
  exists taichi wheel_tag libc_ver,
    import_taichi env = Ret taichi /\
    try_get_wheel_tag env taichi = Ret wheel_tag /\
    bool_decide (platform_system env = "Linux")
      && truthy_str wheel_tag
      && contains "manylinux2014" (default "" wheel_tag) = true /\
    try_get_loaded_libc_version env = Ret libc_ver /\
    truthy_tuple libc_ver && tuple_lt (default [] libc_ver) [2; 27] = false.

(** A Linux host with a manylinux2014 wheel of taichi and glibc 2.31,
    where pip cannot be imported. *)
Definition host_without_pip : Env :=
  {| GGUI_AVAILABLE := false;
     platform_system := "Linux";
     import_taichi :=
       Ret {| mod_path := ["/site-packages/taichi"]; mod_version := [1; 0; 4] |};
     import_wheel_metadata := Ret tt;
     read_pkg_info := fun p =>
       if bool_decide (p = "/site-packages/taichi-1.0.4.dist-info/WHEEL")
       then Ret {[ "Tag" := "cp38-cp38-manylinux2014_x86_64" ]}
       else Raise (mkExc OSError p);
     read_proc_self_maps :=
       Ret "7f0a-7f0b r-xp 00000000 08:01 131 /lib/x86_64-linux-gnu/libc-2.31.so";
     import_pip := Raise (mkExc ModuleNotFoundError "No module named 'pip'") |}.

End Utils.

Import Utils.

(* ===================================================================== *)
(** * The layout indexer exercised by [tests/python/test_indices.py] *)
(* ===================================================================== *)

Module Indices.

(** The axes [ti.i], [ti.j], [ti.k] are the axis ids 0, 1, 2. *)
Definition axis_i : nat := 0.
Definition axis_j : nat := 1.
Definition axis_k : nat := 2.

(** Modelled from the spec: one level of a storage tree, which declares
    one axis and its extent.  The storage-tree builder ([ti.root],
    [dense], [place]) is not part of the sources. *)
Record Level : Set := { lv_axis : nat; lv_extent : Z }.

#[global] Instance Level_eq_dec : EqDecision Level.
Proof. solve_decision. Defined.

(** Modelled from the spec: a field's storage-node chain is the list of
    its levels from the outermost to the innermost ([ti.root] itself
    declares nothing); [c.dense(axis, extent)] nests a new level inside
    [c]. *)
Definition root : list Level := [].

Definition dense (axis : nat) (extent : Z) (c : list Level) : list Level :=
  c ++ [{| lv_axis := axis; lv_extent := extent |}].

(** Modelled from the spec: [ti.field(dtype, shape=...)] declares the axes
    0, 1, 2, ... in this order, one level per entry of the shape. *)
Definition of_shape (shape : list Z) : list Level :=
  imap (fun k e => {| lv_axis := k; lv_extent := e |}) shape.

Definition axes (c : list Level) : list nat := lv_axis <$> c.

(** The level that declares axis [a], with its depth in the chain. *)
Definition find_level (c : list Level) (a : nat) : option (nat * Level) :=
  list_find (fun l => lv_axis l = a) c.

(** Depth of axis [a] in the nesting, 0 being the outermost level. *)
Definition nesting_depth (c : list Level) (a : nat) : option nat :=
  fst <$> find_level c a.

Definition axis_extent (c : list Level) (a : nat) : option Z :=
  (lv_extent ∘ snd) <$> find_level c a.

(** The axes a chain declares, in increasing axis id.  These are the
    virtual indices a user writes, first to last: a field over [ti.i] and
    [ti.j] is indexed [b[i, j]] however its levels are nested. *)
Definition active_axes (c : list Level) : list nat :=
  filter (fun a => a ∈ axes c) (seq 0 (S (max_list (axes c)))).

(** Modelled from the spec: [SNode._physical_index_position] belongs to
    the layout indexer, which is outside the sources; [test_indices] pins
    its result on two storage trees (lines 16 and 20).  It maps the
    position of each virtual index to the axis that index addresses.  Both
    assertions of the test hold for this map; the spec's other wording of
    it, by nesting depth, is [nesting_depth_position] below. *)
Definition physical_index_position (c : list Level) : gmap nat nat :=
  map_seq 0 (active_axes c).

(** Modelled from the spec: the map the spec words as going from each
    virtual axis id to its physical nesting depth, 0 being the outermost
    level. *)
Definition nesting_depth_position (c : list Level) : gmap nat nat :=
  list_to_map (omap (fun a => pair a <$> nesting_depth c a) (active_axes c)).

(** Position of axis [a] among the virtual indices. *)
Definition virtual_index (c : list Level) (a : nat) : option nat :=
  fst <$> list_find (fun a' => a' = a) (active_axes c).

(** The shape a user sees: the extent of every virtual index. *)
Definition virtual_shape (c : list Level) : list Z :=
  omap (axis_extent c) (active_axes c).

(** The index a level receives from the tuple of virtual indices. *)
Definition level_index (c : list Level) (idx : list Z) (l : Level)
    : option Z :=
  k ← virtual_index c (lv_axis l);
  idx !! k.

(** The virtual indices rearranged into physical nesting order. *)
Definition physical_indices (c : list Level) (idx : list Z)
    : option (list Z) :=
  mapM (level_index c idx) c.

(** Row-major offset, in elements, of the physical indices [xs] within
    the nested extents of [c]. *)
Definition row_major_step (acc : Z) (lx : Level * Z) : Z :=
  acc * lv_extent lx.1 + lx.2.

Definition row_major (c : list Level) (xs : list Z) : Z :=
  foldl row_major_step 0 (zip c xs).

(** A placed field: its chain, the byte size of an element and the
    address of its first element. *)
Record FieldLayout : Set := {
  chain : list Level;
  elem_bytes : Z;
  base : Z
}.

(** Byte size of a [ti.f32] element. *)
Definition f32_bytes : Z := 4.

(** Modelled from the spec: [ti.get_addr(field, indices)], the address of
    an element: the virtual indices are brought into physical nesting
    order and the row-major offset over the nested extents is scaled by
    the element size.  A tuple with the wrong number of indices has no
    address. *)
Definition address (f : FieldLayout) (idx : list Z) : option Z :=
  if decide (length idx = length (active_axes (chain f))) then
    xs ← physical_indices (chain f) idx;
    Some (base f + elem_bytes f * row_major (chain f) xs)
  else None.

(** An index tuple on the field: one index per virtual axis, each within
    the extent of its axis. *)
Definition in_bounds (c : list Level) (idx : list Z) : bool :=
  bool_decide (Forall2 (fun e x => 0 <= x < e) (virtual_shape c) idx).

(** A chain the builder accepts: every axis is declared once and every
    extent is positive. *)
Definition wf_chain (c : list Level) : bool :=
  bool_decide (NoDup (axes c)) && forallb (fun l => 0 <? lv_extent l) c.

(** A placed field over a chain the builder accepts, with elements of
    positive size. *)
Definition wf_layout (f : FieldLayout) : bool :=
  wf_chain (chain f) && (0 <? elem_bytes f).

(** The virtual index that addresses the innermost level of the chain,
    the one that varies fastest in memory. *)
Definition innermost_virtual_index (c : list Level) : option nat :=
  l ← last c;
  virtual_index c (lv_axis l).

(** All index tuples of a shape. *)
Fixpoint index_space (shape : list Z) : list (list Z) :=
  match shape with
  | [] => [[]]
  | e :: es => x ← seqZ 0 e; (fun t => x :: t) <$> index_space es
  end.

(** ** Element storage *)

Section Storage.
Context {V : Type} (zero : V).

(** Modelled from the spec: the elements of a field live at their
    addresses; [b[idx] = v] stores at the address of [idx] and [b[idx]]
    loads from it.  Memory never written holds [zero]. *)
Definition write (f : FieldLayout) (mem : gmap Z V) (idx : list Z) (v : V)
    : option (gmap Z V) :=
  a ← address f idx;
  Some (<[a := v]> mem).

Definition read (f : FieldLayout) (mem : gmap Z V) (idx : list Z)
    : option V :=
  a ← address f idx;
  Some (default zero (mem !! a)).

(** A struct-for over the field storing [g idx] at every index, as the
    kernel [fill] of the test does. *)
Definition fill_step (f : FieldLayout) (g : list Z -> V)
    (mem : option (gmap Z V)) (idx : list Z) : option (gmap Z V) :=
  mem ≫= fun mem' => write f mem' idx (g idx).

Definition fill_from (f : FieldLayout) (g : list Z -> V)
    (idxs : list (list Z)) (mem : gmap Z V) : option (gmap Z V) :=
  foldl (fill_step f g) (Some mem) idxs.

Definition fill (f : FieldLayout) (g : list Z -> V) (mem : gmap Z V)
    : option (gmap Z V) :=
  fill_from f g (index_space (virtual_shape (chain f))) mem.
End Storage.

(** ** The fields of [test_indices] *)

(** [a = ti.field(ti.f32, shape=(128, 32, 8))] *)
Definition chain_a : list Level := of_shape [128; 32; 8].

(** [ti.root.dense(ti.j, 32).dense(ti.i, 16).place(b)] *)
Definition chain_b : list Level := dense axis_i 16 (dense axis_j 32 root).

Definition field_b (base_addr : Z) : FieldLayout :=
  {| chain := chain_b; elem_bytes := f32_bytes; base := base_addr |}.

(** The kernel [fill]: [b[i, j] = i * 10 + j]. *)
Definition fill_value (idx : list Z) : Z :=
  match idx with
  | [i; j] => i * 10 + j
  | _ => 0
  end.

(** The kernel [get_field_addr]. *)
Definition get_field_addr (base_addr : Z) (i j : Z) : option Z :=
  address (field_b base_addr) [i; j].

(** The assertions of [test_indices], in order. *)
Definition test_indices (base_addr : Z) : bool :=
  bool_decide (physical_index_position chain_a = {[ 0%nat := 0%nat; 1%nat := 1%nat; 2%nat := 2%nat ]})
  && bool_decide (physical_index_position chain_b = {[ 0%nat := 0%nat; 1%nat := 1%nat ]})
  && match fill (field_b base_addr) fill_value ∅ with
     | Some mem =>
         forallb (fun i =>
           forallb (fun j =>
             bool_decide (read 0 (field_b base_addr) mem [i; j] = Some (i * 10 + j)))
             (seqZ 0 32))
           (seqZ 0 16)
     | None => false
     end
  && bool_decide ((fun a => a + 4) <$> get_field_addr base_addr 0 1
                  = get_field_addr base_addr 1 1).

(** The same two levels as [chain_b], nested the other way round. *)
Definition chain_b_swapped : list Level :=
  dense axis_j 32 (dense axis_i 16 root).

End Indices.

Import Indices.

(* ===================================================================== *)
(** * Values stored in a field *)
(* ===================================================================== *)

Module Typed.







End Typed.

Import Typed.

(* ===================================================================== *)
(** * [get_field_info] over a store of objects *)
(* ===================================================================== *)

Module Heap.

(** The objects [get_field_info] reaches: the field it is given, the
    descriptor it builds and the configuration [default_cfg()] returns. *)
Inductive Obj : Set :=
| FieldObj (f : Field)
| FieldInfoObj (i : FieldInfo)
| ConfigObj (a : Arch).

(** The store: the objects by reference, the next unused reference, the
    reference [default_cfg()] returns, and what [_ti_core.FieldInfo()]
    initialises a descriptor with. *)
Record Store : Set := {
  objects : gmap nat Obj;
  next_ref : nat;
  cfg_ref : nat;
  fresh_info : FieldInfo
}.

Definition with_objects (m : gmap nat Obj) (st : Store) : Store :=
  {| objects := m; next_ref := next_ref st; cfg_ref := cfg_ref st;
     fresh_info := fresh_info st |}.

Definition Cmd (A : Type) : Type := Store -> Res A * Store.

#[global] Instance Cmd_ret : MRet Cmd := fun A a st => (Ret a, st).
#[global] Instance Cmd_bind : MBind Cmd := fun A B f c st =>
  match c st with
  | (Ret a, st') => f a st'
  | (Raise e, st') => (Raise e, st')
  end.

Definition raise {A} (e : PyExc) : Cmd A := fun st => (Raise e, st).

(** [_ti_core.FieldInfo()]: a new object under a reference not used so
    far. *)
Definition new_FieldInfo : Cmd nat := fun st =>
  let l := next_ref st in
  (Ret l,
   {| objects := <[l := FieldInfoObj (fresh_info st)]> (objects st);
      next_ref := S l; cfg_ref := cfg_ref st; fresh_info := fresh_info st |}).

(** [info.<property> = value] on the descriptor under reference [l]. *)
Definition setattr_info (l : nat) (assign : FieldInfo -> FieldInfo)
    : Cmd unit := fun st =>
  match objects st !! l with
  | Some (FieldInfoObj i) =>
      (Ret tt, with_objects (<[l := FieldInfoObj (assign i)]> (objects st)) st)
  | _ => (Raise (mkExc AttributeError "FieldInfo"), st)
  end.

(** [default_cfg().arch] *)
Definition default_cfg_arch : Cmd Arch := fun st =>
  match objects st !! cfg_ref st with
  | Some (ConfigObj a) => (Ret a, st)
  | _ => (Raise (mkExc AttributeError "arch"), st)
  end.

(** [field.<name>] on the field under reference [l]. *)
Definition getattr_field {A} (l : nat) (attr : Field -> option A)
    (name : string) : Cmd A := fun st =>
  match objects st !! l with
  | Some (FieldObj f) =>
      match attr f with
      | Some v => (Ret v, st)
      | None => (Raise (mkExc AttributeError name), st)
      end
  | _ => (Raise (mkExc AttributeError name), st)
  end.

(** [hasattr(field, name)] *)
Definition hasattr_field {A} (l : nat) (attr : Field -> option A)
    : Cmd bool := fun st =>
  match objects st !! l with
  | Some (FieldObj f) => (Ret (hasattr (attr f)), st)
  | _ => (Ret false, st)
  end.

(** Lines 16-25. *)
Definition select_field_source (info : nat) : Cmd unit :=
  a1 ← default_cfg_arch;
  if bool_decide (a1 = cuda) then
    setattr_info info (set_field_source TaichiCuda)
  else
    a2 ← default_cfg_arch;
    if bool_decide (a2 = x64) then
      setattr_info info (set_field_source TaichiX64)
    else
      a3 ← default_cfg_arch;
      if bool_decide (a3 = arm64) then
        setattr_info info (set_field_source TaichiX64)
      else
        a4 ← default_cfg_arch;
        if bool_decide (a4 = vulkan) then
          setattr_info info (set_field_source TaichiVulkan)
        else
          raise (mkExc Exception "unsupported taichi backend").

(** Lines 12-39, with [info] the reference of the new descriptor. *)
Definition describe_into (field : option nat) (info : nat) : Cmd nat :=
  match field with
  | None =>
      _ ← setattr_info info (set_valid false);
      mret info
  | Some field =>
      _ ← setattr_info info (set_valid true);
      _ ← select_field_source info;
      field_shape ← getattr_field field (fun f => Some (shape f)) "shape";
      _ ← setattr_info info (set_shape field_shape);
      field_dtype ← getattr_field field (fun f => Some (dtype f)) "dtype";
      _ ← setattr_info info (set_dtype field_dtype);
      ptr ← getattr_field field (fun f => Some (snode_ptr f)) "snode";
      _ ← setattr_info info (set_snode ptr);
      hasattr_field field n ≫= fun has_n : bool =>
      if has_n then
        _ ← setattr_info info (set_field_type Matrix);
        rows ← getattr_field field n "n";
        _ ← setattr_info info (set_matrix_rows rows);
        cols ← getattr_field field m "m";
        _ ← setattr_info info (set_matrix_cols cols);
        mret info
      else
        _ ← setattr_info info (set_field_type Scalar);
        _ ← setattr_info info (set_matrix_rows 1);
        _ ← setattr_info info (set_matrix_cols 1);
        mret info
  end.

(** [get_field_info] on references: the field is [None] or the reference
    of a field object, the result the reference of the descriptor. *)
Definition get_field_info (field : option nat) : Cmd nat :=
  info ← new_FieldInfo;
  describe_into field info.

(** ** Notions used to state the facts below *)

(** A command that writes to no object but the one under [l], and
    allocates nothing. *)
Definition writes_only {A} (l : nat) (c : Cmd A) : Prop :=
  forall st,
    next_ref (c st).2 = next_ref st /\
    cfg_ref (c st).2 = cfg_ref st /\
    fresh_info (c st).2 = fresh_info st /\
    (forall l0, l0 <> l -> objects (c st).2 !! l0 = objects st !! l0) /\
    (forall i, objects st !! l = Some (FieldInfoObj i) ->
               exists i', objects (c st).2 !! l = Some (FieldInfoObj i')).

(** Two stores that show the same configuration and the same field, with
    the descriptor under [l] in the first holding what the descriptor under
    [l'] holds in the second. *)
Definition similar (field : option nat) (l l' : nat) (sA sB : Store)
    : Prop :=
  cfg_ref sB = cfg_ref sA /\
  objects sB !! cfg_ref sA = objects sA !! cfg_ref sA /\
  (forall fl, field = Some fl -> objects sB !! fl = objects sA !! fl) /\
  objects sB !! l' = objects sA !! l /\
  l <> cfg_ref sA /\ l' <> cfg_ref sA /\
  (forall fl, field = Some fl -> l <> fl /\ l' <> fl).

(** Two commands that, from similar stores, end in similar stores with the
    same exception or with results related by [Q]. *)
Definition related {A} (field : option nat) (l l' : nat)
    (Q : A -> A -> Prop) (cA cB : Cmd A) : Prop :=
  forall sA sB,
    similar field l l' sA sB ->
    similar field l l' (cA sA).2 (cB sB).2 /\
    match (cA sA).1, (cB sB).1 with
    | Ret a, Ret b => Q a b
    | Raise e, Raise e' => e = e'
    | _, _ => False
    end.

(** The store right after the descriptor under [next_ref st] was created
    and assigned the properties [i]. *)
Definition described_store (st : Store) (i : FieldInfo) : Store :=
  {| objects := <[next_ref st := FieldInfoObj i]> (objects st);
     next_ref := S (next_ref st); cfg_ref := cfg_ref st;
     fresh_info := fresh_info st |}.

(** A store with the configuration of an x64 host under reference 0 and
    the matrix field of the samples under reference 1. *)
Definition sample_store : Store :=
  {| objects := {[ 0%nat := ConfigObj x64; 1%nat := FieldObj matrix_field ]};
     next_ref := 2; cfg_ref := 0; fresh_info := blank_info |}.

End Heap.

(* ===================================================================== *)
(** * Further notions and sample hosts *)
(* ===================================================================== *)

Module Scenarios.

(** An object that has [n] but lacks [m]. *)
Definition object_without_m : Field :=
  {| shape := [4]; dtype := f32; snode_ptr := 0; n := Some 3; m := None |}.

(** An exception that is no [GGUINotAvailableException]. *)
Definition foreign (e : PyExc) : Prop :=
  exc_class e <> GGUINotAvailableException.

(** The outcome [r] is not a raised [GGUINotAvailableException]. *)
Definition no_ggui_error {A} (r : Res A) : Prop :=
  forall e, r = Raise e -> foreign e.

(** The condition of line 108-109 on the wheel tag found. *)
Definition manylinux2014_on_linux (env : Env) (wheel_tag : option string)
    : bool :=
  bool_decide (platform_system env = "Linux")
  && truthy_str wheel_tag
  && contains "manylinux2014" (default "" wheel_tag).

(** The libc probe is reached: taichi imports and its wheel is a
    manylinux2014 one on Linux. *)
Definition libc_probe_reached (env : Env) : Prop :=
  exists taichi wheel_tag,
    import_taichi env = Ret taichi /\
    try_get_wheel_tag env taichi = Ret wheel_tag /\
    manylinux2014_on_linux env wheel_tag = true.

(** A text made of decimal digits only. *)
Fixpoint all_digits (s : string) : bool :=
  match s with
  | EmptyString => true
  | String c s' => isdigit c && all_digits s'
  end.

(** A text that [\d+\.\d+] matches in full: two non-empty runs of digits
    with a dot between them. *)
Definition version_text (v : string) : Prop :=
  exists d1 d2, v = d1 +:+ "." +:+ d2 /\
                all_digits d1 = true /\ d1 <> "" /\
                all_digits d2 = true /\ d2 <> "".

(** The tokens of the memory map that name a libc. *)
Definition libc_tokens (content : string) : list string :=
  filter (fun v => contains "libc-" v = true) (split content).

(** [host_without_pip] with another pip, memory map or platform. *)
Definition with_pip (pip : Res string) (env : Env) : Env :=
  {| GGUI_AVAILABLE := GGUI_AVAILABLE env;
     platform_system := platform_system env;
     import_taichi := import_taichi env;
     import_wheel_metadata := import_wheel_metadata env;
     read_pkg_info := read_pkg_info env;
     read_proc_self_maps := read_proc_self_maps env;
     import_pip := pip |}.

Definition with_maps (maps : Res string) (env : Env) : Env :=
  {| GGUI_AVAILABLE := GGUI_AVAILABLE env;
     platform_system := platform_system env;
     import_taichi := import_taichi env;
     import_wheel_metadata := import_wheel_metadata env;
     read_pkg_info := read_pkg_info env;
     read_proc_self_maps := maps;
     import_pip := import_pip env |}.

Definition with_platform (system : string) (env : Env) : Env :=
  {| GGUI_AVAILABLE := GGUI_AVAILABLE env;
     platform_system := system;
     import_taichi := import_taichi env;
     import_wheel_metadata := import_wheel_metadata env;
     read_pkg_info := read_pkg_info env;
     read_proc_self_maps := read_proc_self_maps env;
     import_pip := import_pip env |}.

(** Hosts like [host_without_pip]: with pip 19.0.3, with pip 21.1.2, with
    the pre-release pip 20.3b1, with glibc 2.17, with a glibc whose file is
    named [libc.so.6], with an unreadable memory map, and a macOS host. *)
Definition host_old_pip : Env := with_pip (Ret "19.0.3") host_without_pip.

Definition host_recent_pip : Env := with_pip (Ret "21.1.2") host_without_pip.

Definition host_short_pip : Env := with_pip (Ret "20.3") host_without_pip.

Definition host_prerelease_pip : Env :=
  with_pip (Ret "20.3b1") host_without_pip.

Definition host_old_glibc : Env :=
  with_maps (Ret "7f0a-7f0b r-xp 00000000 08:01 131 /lib64/libc-2.17.so")
    host_recent_pip.

Definition host_unversioned_glibc : Env :=
  with_maps (Ret "7f0a-7f0b r-xp 00000000 08:01 131 /usr/lib/libc.so.6")
    host_recent_pip.

Definition host_unreadable_maps : Env :=
  with_maps (Raise (mkExc OSError "/proc/self/maps")) host_recent_pip.

Definition host_macos : Env := with_platform "Darwin" host_recent_pip.

End Scenarios.

Import Scenarios.

(* ===================================================================== *)
(** * Facts about [get_field_info] *)
(* ===================================================================== *)

Section GetFieldInfo.

Lemma read_only_ret {A} (a : A) : read_only (mret a : Cmd A).
Proof. intros rt. reflexivity. Qed.

Lemma read_only_raise {A} (e : PyExc) : read_only (raise e : Cmd A).
Proof. intros rt. reflexivity. Qed.

Lemma read_only_default_cfg_arch : read_only default_cfg_arch.
Proof. intros rt. reflexivity. Qed.

Lemma read_only_new_FieldInfo : read_only new_FieldInfo.
Proof. intros rt. reflexivity. Qed.

Lemma read_only_getattr {A} (a : option A) name : read_only (getattr a name).
Proof. destruct a; intros rt; reflexivity. Qed.

Lemma read_only_bind {A B} (c : Cmd A) (k : A -> Cmd B) :
  read_only c -> (forall a, read_only (k a)) -> read_only (c ≫= k).
Proof.
  intros Hc Hk rt. unfold mbind, Cmd_bind.
  specialize (Hc rt). destruct (c rt) as [[a|e] rt']; simpl in *; subst.
  - apply Hk.
  - reflexivity.
Qed.

Lemma read_only_if {A} (b : bool) (c1 c2 : Cmd A) :
  read_only c1 -> read_only c2 -> read_only (if b then c1 else c2).
Proof. destruct b; auto. Qed.

Create HintDb ro.

#[local] Hint Resolve read_only_ret read_only_raise read_only_default_cfg_arch
  read_only_new_FieldInfo read_only_getattr : ro.

Ltac read_only_tac :=
  repeat first
    [ apply read_only_bind; [| intros ?]
    | apply read_only_if
    | solve [auto with ro] ].

Lemma read_only_select_field_source info :
  read_only (select_field_source info).
Proof. unfold select_field_source. read_only_tac. Qed.

Lemma read_only_select_field_type field info :
  read_only (select_field_type field info).
Proof. unfold select_field_type. read_only_tac. Qed.

Lemma read_only_get_field_info field : read_only (get_field_info field).
Proof.
  unfold get_field_info. apply read_only_bind; [auto with ro|].
  intros info. destruct field as [f|]; [|auto with ro].
  apply read_only_bind; [apply read_only_select_field_source|].
  intros ?. apply read_only_select_field_type.
Qed.

(** The [if]/[elif] chain, arch by arch. *)
Lemma select_field_source_eq info rt :
  select_field_source info rt =
  (match cfg_arch rt with
   | cuda => Ret (set_field_source TaichiCuda info)
   | x64 | arm64 => Ret (set_field_source TaichiX64 info)
   | vulkan => Ret (set_field_source TaichiVulkan info)
   | other_arch _ => Raise (mkExc Exception "unsupported taichi backend")
   end, rt).
Proof.
  destruct rt as [a defaults]. destruct a; reflexivity.
Qed.

Lemma select_field_type_matrix field info rt r c :
  n field = Some r -> m field = Some c ->
  select_field_type field info rt =
  (Ret (set_matrix_cols c (set_matrix_rows r (set_field_type Matrix info))), rt).
Proof.
  intros Hn Hm. unfold select_field_type. rewrite Hn, Hm. reflexivity.
Qed.

Lemma select_field_type_scalar field info rt :
  n field = None ->
  select_field_type field info rt =
  (Ret (set_matrix_cols 1 (set_matrix_rows 1 (set_field_type Scalar info))), rt).
Proof. intros Hn. unfold select_field_type. rewrite Hn. reflexivity. Qed.

(** An object with [n] but without [m] is no Taichi field: the descriptor
    is abandoned with an [AttributeError]. *)
Lemma select_field_type_missing_m field info rt r :
  n field = Some r -> m field = None ->
  select_field_type field info rt = (Raise (mkExc AttributeError "m"), rt).
Proof.
  intros Hn Hm. unfold select_field_type. rewrite Hn, Hm. reflexivity.
Qed.

Lemma get_field_info_some field rt :
  get_field_info (Some field) rt =
  match cfg_arch rt with
  | cuda => select_field_type field (described rt TaichiCuda field) rt
  | x64 | arm64 => select_field_type field (described rt TaichiX64 field) rt
  | vulkan => select_field_type field (described rt TaichiVulkan field) rt
  | other_arch _ => (Raise (mkExc Exception "unsupported taichi backend"), rt)
  end.
Proof.
  unfold get_field_info, mbind, Cmd_bind, new_FieldInfo.
  rewrite select_field_source_eq.
  destruct (cfg_arch rt); reflexivity.
Qed.

(** On a known arch a Taichi field always gets a descriptor. *)
Lemma get_field_info_returns field rt :
  matrix_attrs_together field ->
  cfg_arch rt ∈ known_arches ->
  exists info,
    get_field_info (Some field) rt = (Ret info, rt) /\
    select_field_type field
      (described rt (field_source info) field) rt = (Ret info, rt) /\
    (cfg_arch rt = cuda -> field_source info = TaichiCuda) /\
    (cfg_arch rt = x64 -> field_source info = TaichiX64) /\
    (cfg_arch rt = arm64 -> field_source info = TaichiX64) /\
    (cfg_arch rt = vulkan -> field_source info = TaichiVulkan).
Proof.
  intros [Hnm Hmn] Hk. rewrite get_field_info_some.
  assert (Hty : forall info0, exists info,
             select_field_type field info0 rt = (Ret info, rt) /\
             field_source info = field_source info0).
  { intros info0. destruct (n field) as [r|] eqn:Hn.
    - destruct (Hnm (ltac:(eauto))) as [c Hm].
      rewrite (select_field_type_matrix _ _ _ r c) by done. eauto.
    - rewrite select_field_type_scalar by done. eauto. }
  unfold known_arches in Hk.
  destruct (cfg_arch rt) eqn:Ha.
  5: { exfalso. repeat (apply elem_of_cons in Hk as [Hk|Hk]; [discriminate|]).
       by apply elem_of_nil in Hk. }
  all: match goal with
       | |- context [described ?r ?s ?f] =>
           destruct (Hty (described r s f)) as (info & Hi & Hs)
       end;
       exists info; simpl in Hs; rewrite Hs;
       repeat split; try done.
Qed.

End GetFieldInfo.

Section GetFieldInfoClaims.

(** C5: called with no field, [get_field_info] returns a descriptor whose
    [valid] flag is false and whose other properties are the ones a fresh
    descriptor has (none is assigned); nothing is raised. *)
Theorem get_field_info_none rt :
  exists info,
    get_field_info None rt = (Ret info, rt) /\
    valid info = false /\
    field_source info = field_source (FieldInfo_defaults rt) /\
    info_shape info = info_shape (FieldInfo_defaults rt) /\
    info_dtype info = info_dtype (FieldInfo_defaults rt) /\
    info_snode info = info_snode (FieldInfo_defaults rt) /\
    field_type info = field_type (FieldInfo_defaults rt) /\
    matrix_rows info = matrix_rows (FieldInfo_defaults rt) /\
    matrix_cols info = matrix_cols (FieldInfo_defaults rt).
Proof.
  exists (set_valid false (FieldInfo_defaults rt)).
  repeat split.
Qed.

(** C6: with a field and an active arch that is none of cuda, x64, arm64
    and vulkan, [get_field_info] raises [Exception("unsupported taichi
    backend")]: the call ends in that exception, no descriptor and no
    fallback tag comes back, and the runtime is not touched. *)
Theorem get_field_info_unsupported_backend rt field :
  cfg_arch rt ∉ known_arches ->
  get_field_info (Some field) rt =
    (Raise (mkExc Exception "unsupported taichi backend"), rt) /\
  (forall info rt', get_field_info (Some field) rt <> (Ret info, rt')).
Proof.
  intros Hk.
  assert (Heq : get_field_info (Some field) rt =
                (Raise (mkExc Exception "unsupported taichi backend"), rt)).
  { rewrite get_field_info_some. unfold known_arches in Hk.
    destruct (cfg_arch rt); try reflexivity; exfalso; apply Hk;
      repeat first [apply list_elem_of_here | apply list_elem_of_further]. }
  split; [exact Heq|]. intros info rt'. rewrite Heq. discriminate.
Qed.

Lemma get_field_info_unsupported_backend_witness :
  (cfg_arch unknown_runtime ∉ known_arches) /\
  get_field_info (Some scalar_field) unknown_runtime =
    (Raise (mkExc Exception "unsupported taichi backend"), unknown_runtime).
Proof.
  assert (Hk : cfg_arch unknown_runtime ∉ known_arches).
  { intros H. unfold known_arches in H. simpl in H.
    repeat (apply elem_of_cons in H as [H|H]; [discriminate|]).
    by apply elem_of_nil in H. }
  split; [exact Hk|].
  exact (proj1 (get_field_info_unsupported_backend
                  unknown_runtime scalar_field Hk)).
Defined.

(** C7: whenever [get_field_info] returns a descriptor for a field, its
    [field_source] is one of [TaichiCuda], [TaichiX64], [TaichiVulkan]:
    [TaichiCuda] on cuda, [TaichiX64] on x64 and on arm64, [TaichiVulkan]
    on vulkan; and on each of these four arches a Taichi field does get a
    descriptor. *)
Theorem get_field_info_field_source rt field :
  (forall info rt',
      get_field_info (Some field) rt = (Ret info, rt') ->
      field_source info ∈ [TaichiCuda; TaichiX64; TaichiVulkan] /\
      (cfg_arch rt = cuda -> field_source info = TaichiCuda) /\
      (cfg_arch rt = x64 -> field_source info = TaichiX64) /\
      (cfg_arch rt = arm64 -> field_source info = TaichiX64) /\
      (cfg_arch rt = vulkan -> field_source info = TaichiVulkan)) /\
  (matrix_attrs_together field ->
   cfg_arch rt ∈ known_arches ->
   exists info, get_field_info (Some field) rt = (Ret info, rt)).
Proof.
  split.
  - intros info rt' Hget.
    assert (Hsrc : forall info0,
               select_field_type field info0 rt = (Ret info, rt') ->
               field_source info = field_source info0).
    { intros info0. unfold select_field_type.
      destruct (n field) as [r|]; [destruct (m field) as [c|]|]; simpl;
        intros [= <- _]; reflexivity. }
    rewrite get_field_info_some in Hget.
    destruct (cfg_arch rt) eqn:Ha; try discriminate;
      apply Hsrc in Hget; simpl in Hget; rewrite Hget;
      (split; [set_solver | repeat split; intros; congruence]).
  - intros Hnm Hk.
    destruct (get_field_info_returns field rt Hnm Hk) as (info & Hget & _).
    eauto.
Qed.

Lemma get_field_info_field_source_witness :
  exists info,
    get_field_info (Some scalar_field) arm64_runtime = (Ret info, arm64_runtime) /\
    field_source info = TaichiX64.
Proof.
  destruct (get_field_info_field_source arm64_runtime scalar_field)
    as [Htag Hret].
  destruct Hret as [info Hget].
  - split; intros [? H]; discriminate H.
  - repeat first [apply list_elem_of_here | apply list_elem_of_further].
  - exists info. split; [exact Hget|].
    apply (Htag info arm64_runtime Hget). reflexivity.
Defined.

(** C8: whenever [get_field_info] returns a descriptor for a field, its
    [field_type] is [Matrix] exactly when the field has the attributes [n]
    and [m], and then [matrix_rows] and [matrix_cols] are those counts;
    otherwise it is [Scalar] with both counts 1.  On a known arch a Taichi
    field does get a descriptor. *)
Theorem get_field_info_field_type rt field :
  (forall info rt',
      get_field_info (Some field) rt = (Ret info, rt') ->
      (field_type info = Matrix <-> is_Some (n field) /\ is_Some (m field)) /\
      (forall r c, n field = Some r -> m field = Some c ->
         field_type info = Matrix /\
         matrix_rows info = r /\ matrix_cols info = c) /\
      (n field = None ->
         field_type info = Scalar /\
         matrix_rows info = 1 /\ matrix_cols info = 1)) /\
  (matrix_attrs_together field ->
   cfg_arch rt ∈ known_arches ->
   exists info, get_field_info (Some field) rt = (Ret info, rt)).
Proof.
  split.
  - intros info rt' Hget.
    assert (Hty : forall info0,
               select_field_type field info0 rt = (Ret info, rt') ->
               match n field, m field with
               | Some r, Some c =>
                   field_type info = Matrix /\
                   matrix_rows info = r /\ matrix_cols info = c
               | Some _, None => False
               | None, _ =>
                   field_type info = Scalar /\
                   matrix_rows info = 1 /\ matrix_cols info = 1
               end).
    { intros info0. unfold select_field_type.
      destruct (n field) as [r|]; [destruct (m field) as [c|]|]; simpl;
        intros [= <- _]; done. }
    assert (Hcase : match n field, m field with
                    | Some r, Some c =>
                        field_type info = Matrix /\
                        matrix_rows info = r /\ matrix_cols info = c
                    | Some _, None => False
                    | None, _ =>
                        field_type info = Scalar /\
                        matrix_rows info = 1 /\ matrix_cols info = 1
                    end).
    { rewrite get_field_info_some in Hget.
      destruct (cfg_arch rt); try discriminate; eapply Hty, Hget. }
    clear Hty Hget.
    destruct (n field) as [r|], (m field) as [c|]; try done;
      destruct Hcase as (Ht & Hr & Hc);
      (split; [split|split]); eauto;
      try (intros; congruence);
      try (intros [[? ?] _]; discriminate).
    intros r0 c0 [= <-] [= <-]. done.
  - intros Hnm Hk.
    destruct (get_field_info_returns field rt Hnm Hk) as (info & Hget & _).
    eauto.
Qed.

Lemma get_field_info_field_type_witness :
  exists info,
    get_field_info (Some matrix_field) x64_runtime = (Ret info, x64_runtime) /\
    field_type info = Matrix /\ matrix_rows info = 3 /\ matrix_cols info = 2.
Proof.
  destruct (get_field_info_field_type x64_runtime matrix_field)
    as [Hkind Hret].
  destruct Hret as [info Hget].
  - split; intros _; eexists; reflexivity.
  - repeat first [apply list_elem_of_here | apply list_elem_of_further].
  - exists info. split; [exact Hget|].
    apply (Hkind info x64_runtime Hget); reflexivity.
Defined.

End GetFieldInfoClaims.

(* ===================================================================== *)
(** * Facts about [check_ggui_availability] *)
(* ===================================================================== *)

Section CheckGGUI.

Lemma isinstance_Exception e : isinstance e Exception = true.
Proof. reflexivity. Qed.

Lemma isinstance_GGUI e :
  isinstance e GGUINotAvailableException = true <->
  exc_class e = GGUINotAvailableException.
Proof.
  unfold isinstance, issubclass. apply bool_decide_eq_true.
Qed.

(** [try_get_wheel_tag] never raises: whatever goes wrong while reading
    the wheel metadata yields [None]. *)
Lemma try_get_wheel_tag_total env module :
  try_get_wheel_tag env module =
  match wheel_tag_probe env module with
  | Ret tag => Ret tag
  | Raise _ => Ret None
  end.
Proof.
  unfold try_get_wheel_tag, try_except, try_clauses.
  destruct (wheel_tag_probe env module); reflexivity.
Qed.

(** What the two [except] clauses of [check_ggui_availability] make of
    the diagnosis. *)
Lemma check_ggui_availability_unavailable env :
  GGUI_AVAILABLE env = false ->
  check_ggui_availability env =
  match diagnose env with
  | Ret _ => Raise (GGUI_error msg_generic)
  | Raise e =>
      if isinstance e GGUINotAvailableException then Raise e
      else Raise (GGUI_error msg_generic)
  end.
Proof.
  intros Hflag. unfold check_ggui_availability, try_clauses. rewrite Hflag.
  destruct (diagnose env) as [[]|e]; [reflexivity|]. cbn [dispatch].
  destruct (isinstance e GGUINotAvailableException); [reflexivity|].
  rewrite isinstance_Exception. reflexivity.
Qed.

Lemma diagnose_pip_import_error env e :
  pip_probe_reached env ->
  pip_probe env = Raise e ->
  isinstance e ImportError = true ->
  diagnose env = Raise (GGUI_error msg_restricted).
Proof.
  intros (taichi & tag & ver & Ht & Hw & Hc & Hl & Hv) Hp He.
  unfold diagnose. rewrite Ht. simpl. rewrite Hw. simpl. rewrite Hc.
  rewrite Hl. simpl. rewrite Hv.
  unfold try_except, try_clauses. rewrite Hp. cbn [dispatch]. rewrite He.
  reflexivity.
Qed.

Lemma host_without_pip_reaches_pip : pip_probe_reached host_without_pip.
Proof.
  exists {| mod_path := ["/site-packages/taichi"]; mod_version := [1; 0; 4] |},
         (Some "cp38-cp38-manylinux2014_x86_64"), (Some [2; 31]).
  repeat split; vm_compute; reflexivity.
Qed.

(** C10, the claim as worded fails: on [host_without_pip] the pip probe
    raises an exception that is no [GGUINotAvailableException]; it is
    swallowed, yet what escapes is the "restricted version" error and not
    [GGUINotAvailableException("GGUI is not available.")]. *)
Lemma check_ggui_availability_import_error_not_generic :
  GGUI_AVAILABLE host_without_pip = false /\
  pip_probe_reached host_without_pip /\
  pip_probe host_without_pip =
    Raise (mkExc ModuleNotFoundError "No module named 'pip'") /\
  isinstance (mkExc ModuleNotFoundError "No module named 'pip'")
    GGUINotAvailableException = false /\
  check_ggui_availability host_without_pip =
    Raise (GGUI_error msg_restricted) /\
  check_ggui_availability host_without_pip <>
    Raise (GGUI_error msg_generic).
Proof.
  split; [reflexivity|].
  split; [apply host_without_pip_reaches_pip|].
  split; [reflexivity|].
  split; [reflexivity|].
  assert (H : check_ggui_availability host_without_pip =
              Raise (GGUI_error msg_restricted)) by (vm_compute; reflexivity).
  split; [exact H|]. rewrite H. intros Hmsg. discriminate Hmsg.
Qed.

(** C10, as the code has it: [check_ggui_availability] returns exactly
    when [GGUI_AVAILABLE] is true; otherwise it raises, and what escapes is
    always a [GGUINotAvailableException].  An exception of another class
    that leaves the diagnosis is swallowed and the generic
    [GGUINotAvailableException("GGUI is not available.")] is raised; a
    failure inside [try_get_wheel_tag] only makes the tag [None]; and an
    [ImportError] from the pip probe is swallowed by the inner handler,
    after which the "restricted version" error is raised. *)
Theorem check_ggui_availability_outcome env :
  (returns (check_ggui_availability env) <-> GGUI_AVAILABLE env = true) /\
  (GGUI_AVAILABLE env = false ->
   exists e, check_ggui_availability env = Raise e /\
             exc_class e = GGUINotAvailableException) /\
  (GGUI_AVAILABLE env = false ->
   forall e, diagnose env = Raise e ->
             exc_class e <> GGUINotAvailableException ->
             check_ggui_availability env = Raise (GGUI_error msg_generic)) /\
  (forall module e, wheel_tag_probe env module = Raise e ->
                    try_get_wheel_tag env module = Ret None) /\
  (GGUI_AVAILABLE env = false ->
   pip_probe_reached env ->
   forall e, pip_probe env = Raise e ->
             isinstance e ImportError = true ->
             check_ggui_availability env = Raise (GGUI_error msg_restricted)).
Proof.
  assert (Hraise : GGUI_AVAILABLE env = false ->
            exists e, check_ggui_availability env = Raise e /\
                      exc_class e = GGUINotAvailableException).
  { intros Hflag. rewrite check_ggui_availability_unavailable by done.
    destruct (diagnose env) as [[]|e]; [by eexists|].
    destruct (isinstance e GGUINotAvailableException) eqn:He.
    - exists e. split; [done|]. by apply isinstance_GGUI.
    - by eexists. }
  split; [|split; [exact Hraise|split; [|split]]].
  - split.
    + intros [a Hret]. destruct (GGUI_AVAILABLE env) eqn:Hflag; [done|].
      destruct (Hraise eq_refl) as (e & He & _). congruence.
    + intros Hflag. exists tt. unfold check_ggui_availability.
      by rewrite Hflag.
  - intros Hflag e Hd Hc.
    rewrite check_ggui_availability_unavailable, Hd by done.
    destruct (isinstance e GGUINotAvailableException) eqn:He; [|done].
    by apply isinstance_GGUI in He.
  - intros module e Hp. by rewrite try_get_wheel_tag_total, Hp.
  - intros Hflag Hreach e Hp He.
    rewrite check_ggui_availability_unavailable by done.
    by rewrite (diagnose_pip_import_error env e).
Qed.

Lemma check_ggui_availability_outcome_witness :
  GGUI_AVAILABLE host_without_pip = false /\
  exists e, check_ggui_availability host_without_pip = Raise e /\
            exc_class e = GGUINotAvailableException.
Proof.
  split; [reflexivity|].
  exact (proj1 (proj2 (check_ggui_availability_outcome host_without_pip))
           eq_refl).
Defined.

End CheckGGUI.

(* ===================================================================== *)
(** * Facts about the layout indexer *)
(* ===================================================================== *)

Section VirtualIndices.
Implicit Types (c : list Level) (a k : nat) (l : Level) (idx xs : list Z).

Lemma elem_of_active_axes c a : a ∈ active_axes c <-> a ∈ axes c.
Proof.
  unfold active_axes. rewrite list_elem_of_filter, elem_of_seq.
  split; [tauto|]. intros Ha. split; [done|].
  apply max_list_elem_of_le in Ha. lia.
Qed.

Lemma NoDup_active_axes c : NoDup (active_axes c).
Proof. apply NoDup_filter, NoDup_seq. Qed.

(** The virtual indices depend on which axes are declared, not on the
    order of the declarations. *)
Lemma active_axes_perm c c' :
  axes c ≡ₚ axes c' -> active_axes c = active_axes c'.
Proof.
  intros Hp. unfold active_axes.
  assert (Hmax : max_list (axes c) = max_list (axes c')) by (by rewrite Hp).
  rewrite Hmax. apply list_filter_iff. intros a. by rewrite Hp.
Qed.

Lemma physical_index_position_lookup c k :
  physical_index_position c !! k = active_axes c !! k.
Proof. apply lookup_map_seq_0. Qed.

Lemma virtual_index_Some c a k :
  virtual_index c a = Some k <-> active_axes c !! k = Some a.
Proof.
  unfold virtual_index. split.
  - intros H. apply fmap_Some in H as ([k' a'] & Hf & ->).
    apply list_find_Some in Hf as (Hl & -> & _). done.
  - intros Hl.
    destruct (list_find (λ a', a' = a) (active_axes c)) as [[k' a']|] eqn:Hf.
    + apply list_find_Some in Hf as (Hl' & -> & _). simpl. f_equal.
      eapply NoDup_lookup; eauto using NoDup_active_axes.
    + rewrite list_find_None, Forall_forall in Hf.
      exfalso. eapply Hf; [|done]. eapply list_elem_of_lookup_2, Hl.
Qed.

Lemma virtual_index_is_Some c a : a ∈ axes c -> is_Some (virtual_index c a).
Proof.
  intros Ha. apply elem_of_active_axes, list_elem_of_lookup in Ha as [k Hk].
  exists k. by apply virtual_index_Some.
Qed.

(** With every axis declared once, looking an axis up finds the one level
    that declares it. *)
Lemma find_level_NoDup c p l :
  NoDup (axes c) -> c !! p = Some l ->
  find_level c (lv_axis l) = Some (p, l).
Proof.
  intros Hnd Hp. unfold find_level. apply list_find_Some.
  split; [done|]. split; [done|].
  intros j y Hj Hlt Heq.
  assert (j = p); [|lia].
  apply (NoDup_lookup (axes c) j p (lv_axis l) Hnd); unfold axes;
    rewrite list_lookup_fmap; [rewrite Hj|rewrite Hp]; simpl; congruence.
Qed.

Lemma find_level_is_Some c a : a ∈ axes c -> is_Some (find_level c a).
Proof.
  intros Ha. unfold axes in Ha.
  apply list_elem_of_fmap in Ha as (l & -> & Hl).
  unfold find_level. eapply list_find_elem_of; eauto.
Qed.

Lemma length_virtual_shape c :
  length (virtual_shape c) = length (active_axes c).
Proof.
  unfold virtual_shape.
  assert (H : Forall (fun a => is_Some (axis_extent c a)) (active_axes c)).
  { apply Forall_forall. intros a Ha%elem_of_active_axes.
    unfold axis_extent. apply fmap_is_Some. by apply find_level_is_Some. }
  induction H as [|a la [e He] _ IH]; simpl; [done|].
  rewrite He. simpl. f_equal. exact IH.
Qed.

Lemma virtual_shape_lookup c k a :
  active_axes c !! k = Some a ->
  virtual_shape c !! k = axis_extent c a.
Proof.
  unfold virtual_shape.
  assert (H : Forall (fun a => is_Some (axis_extent c a)) (active_axes c)).
  { apply Forall_forall. intros a' Ha%elem_of_active_axes.
    unfold axis_extent. apply fmap_is_Some. by apply find_level_is_Some. }
  revert k. induction H as [|a' la [e He] _ IH]; intros k Hk; [done|].
  simpl. rewrite He. simpl. destruct k as [|k]; simpl in *.
  - congruence.
  - by apply IH.
Qed.

Lemma in_bounds_length c idx :
  in_bounds c idx = true -> length idx = length (active_axes c).
Proof.
  intros H%bool_decide_eq_true. apply Forall2_length in H.
  by rewrite <- H, length_virtual_shape.
Qed.

(** The index a level receives lies within the extent of that level. *)
Lemma level_index_in_bounds c idx p l :
  NoDup (axes c) -> in_bounds c idx = true -> c !! p = Some l ->
  exists x, level_index c idx l = Some x /\ 0 <= x < lv_extent l.
Proof.
  intros Hnd Hb%bool_decide_eq_true Hp.
  assert (Ha : lv_axis l ∈ axes c).
  { unfold axes. apply list_elem_of_fmap. exists l. split; [done|].
    by eapply list_elem_of_lookup_2. }
  destruct (virtual_index_is_Some c _ Ha) as [k Hk].
  pose proof Hk as Hk'. apply virtual_index_Some in Hk'.
  pose proof (virtual_shape_lookup c k _ Hk') as Hs.
  unfold axis_extent in Hs. rewrite (find_level_NoDup c p l) in Hs by done.
  simpl in Hs.
  destruct (Forall2_lookup_l _ _ _ _ _ Hb Hs) as (x & Hx & Hrange).
  exists x. split; [|done]. unfold level_index. rewrite Hk. simpl. done.
Qed.

Lemma physical_indices_in_bounds c idx :
  NoDup (axes c) -> in_bounds c idx = true ->
  exists xs, physical_indices c idx = Some xs /\
             Forall2 (fun l x => level_index c idx l = Some x /\
                                 0 <= x < lv_extent l) c xs.
Proof.
  intros Hnd Hb.
  assert (H : Forall (fun l => exists x, level_index c idx l = Some x /\
                                         0 <= x < lv_extent l) c).
  { apply Forall_lookup. intros p l Hp. by eapply level_index_in_bounds. }
  unfold physical_indices.
  clear Hnd Hb. generalize dependent (level_index c idx). intros g H.
  induction H as [|l c' Hl _ IH].
  - exists []. split; [done|constructor].
  - destruct Hl as (x & Hx & Hr). destruct IH as (xs & IH1 & IH2).
    exists (x :: xs). split.
    + apply mapM_Some. constructor; [done|]. by apply mapM_Some in IH1.
    + by constructor.
Qed.

End VirtualIndices.

Section RowMajor.
Implicit Types (c : list Level) (l : Level) (idx xs ys : list Z).

Lemma row_major_snoc c l xs x :
  length c = length xs ->
  row_major (c ++ [l]) (xs ++ [x]) = row_major c xs * lv_extent l + x.
Proof.
  intros Hlen. unfold row_major.
  rewrite zip_with_app, foldl_app by done. reflexivity.
Qed.

(** Mixed-radix digits are determined by the number they spell. *)
Lemma row_major_inj c xs ys :
  Forall2 (fun l x => 0 <= x < lv_extent l) c xs ->
  Forall2 (fun l x => 0 <= x < lv_extent l) c ys ->
  row_major c xs = row_major c ys ->
  xs = ys.
Proof.
  revert xs ys. induction c as [|l c IH] using rev_ind; intros xs ys Hx Hy Heq.
  - apply Forall2_nil_inv_l in Hx, Hy. congruence.
  - apply Forall2_app_inv_l in Hx as (xs0 & xl & Hx0 & Hxl & ->).
    apply Forall2_app_inv_l in Hy as (ys0 & yl & Hy0 & Hyl & ->).
    apply Forall2_cons_inv_l in Hxl as (x & ? & Hxr & ->%Forall2_nil_inv_l & ->).
    apply Forall2_cons_inv_l in Hyl as (y & ? & Hyr & ->%Forall2_nil_inv_l & ->).
    rewrite !row_major_snoc in Heq by (by eapply Forall2_length).
    assert (row_major c xs0 = row_major c ys0 /\ x = y) as [Hr ->].
    { apply (Z.div_mod_unique (lv_extent l)); [by left|by left|lia]. }
    f_equal. by apply IH.
Qed.

Lemma Forall2_snoc_inv {A B} (P : A -> B -> Prop) (la : list A) a (lb : list B) :
  Forall2 P (la ++ [a]) lb ->
  exists lb0 b, lb = lb0 ++ [b] /\ Forall2 P la lb0 /\ P a b.
Proof.
  intros H. apply Forall2_app_inv_l in H as (lb0 & lb1 & H0 & H1 & ->).
  apply Forall2_cons_inv_l in H1 as (b & ? & Hb & ->%Forall2_nil_inv_l & ->).
  eauto.
Qed.

(** Two tuples with the same length that give every level the same index
    are the same tuple. *)
Lemma level_indices_determine c idx1 idx2 xs :
  length idx1 = length (active_axes c) ->
  length idx2 = length (active_axes c) ->
  Forall2 (fun l x => level_index c idx1 l = Some x) c xs ->
  Forall2 (fun l x => level_index c idx2 l = Some x) c xs ->
  idx1 = idx2.
Proof.
  intros Hl1 Hl2 H1 H2. apply list_eq. intros k.
  destruct (active_axes c !! k) as [a|] eqn:Hk.
  - assert (Ha : a ∈ axes c).
    { apply elem_of_active_axes. by eapply list_elem_of_lookup_2. }
    unfold axes in Ha. apply list_elem_of_fmap in Ha as (l & -> & Hl).
    apply list_elem_of_lookup in Hl as [p Hp].
    destruct (Forall2_lookup_l _ _ _ _ _ H1 Hp) as (x & Hx & Hx1).
    destruct (Forall2_lookup_l _ _ _ _ _ H2 Hp) as (x' & Hx' & Hx2).
    assert (x' = x) as -> by congruence.
    apply virtual_index_Some in Hk.
    unfold level_index in Hx1, Hx2. rewrite Hk in Hx1, Hx2. simpl in *.
    congruence.
  - apply lookup_ge_None in Hk.
    rewrite !(proj2 (lookup_ge_None _ _)); [done|lia|lia].
Qed.

Lemma wf_chain_NoDup c : wf_chain c = true -> NoDup (axes c).
Proof.
  unfold wf_chain. intros [H _]%andb_prop. by apply bool_decide_eq_true in H.
Qed.

Lemma address_in_bounds f idx :
  wf_chain (chain f) = true -> in_bounds (chain f) idx = true ->
  exists xs,
    address f idx = Some (base f + elem_bytes f * row_major (chain f) xs) /\
    Forall2 (fun l x => level_index (chain f) idx l = Some x /\
                        0 <= x < lv_extent l) (chain f) xs.
Proof.
  intros Hwf Hb. pose proof (wf_chain_NoDup _ Hwf) as Hnd.
  destruct (physical_indices_in_bounds _ _ Hnd Hb) as (xs & Hxs & HF).
  exists xs. split; [|done]. unfold address.
  rewrite decide_True by (by apply in_bounds_length). by rewrite Hxs.
Qed.

(** Distinct index tuples on a field have distinct addresses. *)
Lemma address_inj f idx1 idx2 a :
  wf_layout f = true ->
  in_bounds (chain f) idx1 = true -> in_bounds (chain f) idx2 = true ->
  address f idx1 = Some a -> address f idx2 = Some a ->
  idx1 = idx2.
Proof.
  unfold wf_layout. intros [Hwf Hsz%Z.ltb_lt]%andb_prop Hb1 Hb2 Ha1 Ha2.
  destruct (address_in_bounds f idx1 Hwf Hb1) as (xs & Hx & HFx).
  destruct (address_in_bounds f idx2 Hwf Hb2) as (ys & Hy & HFy).
  rewrite Hx in Ha1. rewrite Hy in Ha2.
  assert (Hrm : row_major (chain f) xs = row_major (chain f) ys).
  { injection Ha1 as <-. injection Ha2 as Ha2. nia. }
  assert (xs = ys) as <-.
  { eapply row_major_inj; [| |exact Hrm].
    - eapply Forall2_impl; [exact HFx|]. by intros ?? [_ ?].
    - eapply Forall2_impl; [exact HFy|]. by intros ?? [_ ?]. }
  eapply level_indices_determine.
  - by apply in_bounds_length.
  - by apply in_bounds_length.
  - eapply Forall2_impl; [exact HFx|]. by intros ?? [? _].
  - eapply Forall2_impl; [exact HFy|]. by intros ?? [? _].
Qed.

End RowMajor.

Section Addresses.
Implicit Types (c : list Level) (l : Level) (idx xs ys : list Z)
  (f : FieldLayout).

Lemma address_is_Some f idx :
  length idx = length (active_axes (chain f)) -> is_Some (address f idx).
Proof.
  intros Hlen. unfold address. rewrite decide_True by done.
  assert (H : is_Some (physical_indices (chain f) idx)).
  { unfold physical_indices. apply mapM_is_Some, Forall_forall.
    intros l Hl. change (is_Some (level_index (chain f) idx l)).
    unfold level_index.
    destruct (virtual_index_is_Some (chain f) (lv_axis l)) as [k Hk].
    { unfold axes. by apply list_elem_of_fmap_2. }
    rewrite Hk. simpl. apply lookup_lt_is_Some. rewrite Hlen.
    apply virtual_index_Some in Hk. by eapply lookup_lt_Some. }
  destruct H as [xs ->]. by eexists.
Qed.

(** Levels other than the one a virtual index addresses do not see a
    change of that index. *)
Lemma level_index_other c idx idx' k l l' :
  virtual_index c (lv_axis l) = Some k ->
  lv_axis l' <> lv_axis l ->
  (forall k', k' <> k -> idx' !! k' = idx !! k') ->
  level_index c idx' l' = level_index c idx l'.
Proof.
  intros Hk Hne Hagree. unfold level_index.
  destruct (virtual_index c (lv_axis l')) as [k'|] eqn:Hk'; [|done].
  simpl. apply Hagree. intros ->.
  apply virtual_index_Some in Hk, Hk'. congruence.
Qed.

Lemma Forall2_fun_agree {A B} (g g' : A -> option B) (la : list A)
    (lb lb' : list B) :
  Forall2 (fun a b => g a = Some b) la lb ->
  Forall2 (fun a b => g' a = Some b) la lb' ->
  (forall a, a ∈ la -> g' a = g a) ->
  lb' = lb.
Proof.
  intros H. revert lb'. induction H as [|a b la lb Hab _ IH];
    intros lb' H' Hagree.
  - by apply Forall2_nil_inv_l in H'.
  - apply Forall2_cons_inv_l in H' as (b' & lb0 & Hab' & H' & ->).
    rewrite Hagree in Hab' by left. f_equal; [congruence|].
    apply IH; [done|]. intros a' Ha'. apply Hagree. by right.
Qed.

Lemma address_innermost_succ f idx idx' k x :
  wf_chain (chain f) = true ->
  innermost_virtual_index (chain f) = Some k ->
  in_bounds (chain f) idx = true ->
  in_bounds (chain f) idx' = true ->
  idx !! k = Some x ->
  idx' !! k = Some (x + 1) ->
  (forall k', k' <> k -> idx' !! k' = idx !! k') ->
  exists a, address f idx = Some a /\
            address f idx' = Some (a + elem_bytes f).
Proof.
  intros Hwf Hin Hb Hb' Hx Hx' Hagree.
  pose proof (wf_chain_NoDup _ Hwf) as Hnd.
  destruct (address_in_bounds f idx Hwf Hb) as (xs & Ha & HF).
  destruct (address_in_bounds f idx' Hwf Hb') as (xs' & Ha' & HF').
  rewrite Ha, Ha'. eexists. split; [reflexivity|]. f_equal.
  unfold innermost_virtual_index in Hin.
  destruct (last (chain f)) as [l|] eqn:Hlast; [|done]. simpl in Hin.
  apply last_Some in Hlast as [c0 Hc].
  assert (HG : Forall2 (fun l y => level_index (chain f) idx l = Some y)
                 (c0 ++ [l]) xs).
  { rewrite <- Hc. eapply Forall2_impl; [exact HF|]. by intros ?? [? _]. }
  assert (HG' : Forall2 (fun l y => level_index (chain f) idx' l = Some y)
                  (c0 ++ [l]) xs').
  { rewrite <- Hc. eapply Forall2_impl; [exact HF'|]. by intros ?? [? _]. }
  apply Forall2_snoc_inv in HG as (xs0 & y & -> & HG0 & Hy).
  apply Forall2_snoc_inv in HG' as (xs0' & y' & -> & HG0' & Hy').
  unfold level_index in Hy, Hy'. rewrite Hin in Hy, Hy'. simpl in Hy, Hy'.
  assert (y = x) as -> by congruence.
  assert (y' = x + 1) as -> by congruence.
  assert (xs0' = xs0) as ->.
  { eapply Forall2_fun_agree; [exact HG0|exact HG0'|].
    intros l' Hl'. eapply level_index_other; [exact Hin| |exact Hagree].
    intros Heq. rewrite Hc in Hnd. unfold axes in Hnd.
    rewrite fmap_app in Hnd. apply NoDup_app in Hnd as (_ & Hdisj & _).
    apply (Hdisj (lv_axis l')); [by apply list_elem_of_fmap_2|].
    rewrite Heq. simpl. left. }
  rewrite Hc. rewrite !row_major_snoc by (by eapply Forall2_length).
  ring.
Qed.

End Addresses.

Section Elements.
Context {V : Type} (zero : V).
Implicit Types (f : FieldLayout) (mem : gmap Z V) (idx : list Z) (v : V).








End Elements.

Section TestIndices.

(** The assertions of [test_indices] hold in the model. *)
Example test_indices_passes : test_indices 4096 = true.
Proof. vm_compute. reflexivity. Qed.

(** Two chains over the same axes have the same map, whatever their
    extents and nesting. *)
Lemma physical_index_position_perm c c' :
  axes c ≡ₚ axes c' ->
  physical_index_position c = physical_index_position c'.
Proof.
  intros Hp. unfold physical_index_position. by rewrite (active_axes_perm c c').
Qed.

Lemma filter_Forall {A} (P : A -> Prop) `{forall x, Decision (P x)}
    (la : list A) :
  Forall P la -> filter P la = la.
Proof.
  induction 1 as [|a la Ha _ IH]; [done|].
  rewrite filter_cons_True by done. by rewrite IH.
Qed.

Lemma filter_lt_seq (k b : nat) :
  (k <= b)%nat -> filter (fun a => (a < k)%nat) (seq 0 b) = seq 0 k.
Proof.
  induction b as [|b IH]; intros Hle.
  - assert (k = 0%nat) as -> by lia. reflexivity.
  - rewrite seq_S, filter_app. simpl.
    destruct (decide (k = S b)) as [->|Hne].
    + rewrite seq_S. simpl. f_equal.
      * apply filter_Forall, Forall_forall. intros a Ha%elem_of_seq. lia.
      * rewrite filter_cons_True by lia. done.
    + rewrite IH by lia. rewrite filter_cons_False by lia.
      by rewrite filter_nil, app_nil_r.
Qed.

Lemma axes_of_shape shape : axes (of_shape shape) = seq 0 (length shape).
Proof.
  unfold axes, of_shape. apply list_eq. intros k.
  rewrite list_lookup_fmap, list_lookup_imap.
  destruct (shape !! k) as [e|] eqn:He; simpl.
  - symmetry. apply lookup_seq. split; [done|]. by eapply lookup_lt_Some.
  - symmetry. apply lookup_ge_None. rewrite length_seq.
    by apply lookup_ge_None.
Qed.

(** A field declared by its shape has the identity map. *)
Lemma active_axes_of_shape shape :
  active_axes (of_shape shape) = seq 0 (length shape).
Proof.
  unfold active_axes. rewrite axes_of_shape.
  set (b := S (max_list (seq 0 (length shape)))).
  assert (Hle : (length shape <= b)%nat).
  { destruct shape as [|e es]; [simpl; lia|].
    assert (length es ∈ seq 0 (length (e :: es))).
    { apply elem_of_seq. simpl. lia. }
    apply max_list_elem_of_le in H. simpl in *. lia. }
  transitivity (filter (fun a => (a < length shape)%nat) (seq 0 b)).
  - apply list_filter_iff. intros a. rewrite elem_of_seq. lia.
  - by apply filter_lt_seq.
Qed.

(** C1, the claim as worded fails: in the tree of [b], which declares [j]
    outside [i], the map is {0:0, 1:1} but axis [i] is the inner level
    (depth 1) and axis [j] the outer one (depth 0); the spec's
    nesting-depth map of this tree is {0:1, 1:0}. *)
Lemma chain_b_axis_i_not_outermost :
  ~ (physical_index_position chain_b = {[ 0%nat := 0%nat; 1%nat := 1%nat ]} /\
     nesting_depth chain_b axis_i = Some 0%nat /\
     nesting_depth chain_b axis_j = Some 1%nat) /\
  nesting_depth_position chain_b = {[ 0%nat := 1%nat; 1%nat := 0%nat ]} /\
  nesting_depth_position chain_b <> physical_index_position chain_b.
Proof.
  split; [|split].
  - intros (_ & Hi & _). vm_compute in Hi. discriminate Hi.
  - vm_compute. reflexivity.
  - intros Heq.
    assert (H : nesting_depth_position chain_b !! 0%nat
                = physical_index_position chain_b !! 0%nat) by (by rewrite Heq).
    vm_compute in H. discriminate H.
Qed.

(** C1, as the test has it: for the tree that declares [j] (extent 32)
    outside [i] (extent 16) the map is {0:0, 1:1}: the first virtual index
    is axis [i] and the second is axis [j], in the order of the axis ids.
    In the nesting [j] is the outer level (depth 0) and [i] the inner one
    (depth 1), and every tree over the same two axes, whichever is
    declared first, has this same map. *)
Theorem physical_index_position_chain_b :
  physical_index_position chain_b = {[ 0%nat := 0%nat; 1%nat := 1%nat ]} /\
  virtual_index chain_b axis_i = Some 0%nat /\
  virtual_index chain_b axis_j = Some 1%nat /\
  nesting_depth chain_b axis_j = Some 0%nat /\
  nesting_depth chain_b axis_i = Some 1%nat /\
  (forall c, axes c ≡ₚ axes chain_b ->
             physical_index_position c = physical_index_position chain_b).
Proof.
  repeat split; try (vm_compute; reflexivity).
  intros c Hp. by apply physical_index_position_perm.
Qed.

Lemma physical_index_position_chain_b_witness :
  axes chain_b_swapped ≡ₚ axes chain_b /\
  physical_index_position chain_b_swapped = physical_index_position chain_b.
Proof.
  assert (Hp : axes chain_b_swapped ≡ₚ axes chain_b).
  { change ([0%nat; 1%nat] ≡ₚ [1%nat; 0%nat]). apply perm_swap. }
  split; [exact Hp|].
  exact (proj2 (proj2 (proj2 (proj2 (proj2
           physical_index_position_chain_b)))) chain_b_swapped Hp).
Defined.

(** C2: two index tuples on a field that agree everywhere except in the
    virtual index of the innermost level, where the second is larger by
    one, have addresses one element apart: 4 bytes for a field of
    [ti.f32]. *)
Theorem address_adjacent_innermost f idx idx' k x :
  wf_chain (chain f) = true ->
  innermost_virtual_index (chain f) = Some k ->
  in_bounds (chain f) idx = true ->
  in_bounds (chain f) idx' = true ->
  idx !! k = Some x ->
  idx' !! k = Some (x + 1) ->
  (forall k', k' <> k -> idx' !! k' = idx !! k') ->
  exists a, address f idx = Some a /\
            address f idx' = Some (a + elem_bytes f) /\
            (elem_bytes f = f32_bytes -> address f idx' = Some (a + 4)).
Proof.
  intros Hwf Hin Hb Hb' Hx Hx' Hagree.
  destruct (address_innermost_succ f idx idx' k x) as (a & Ha & Ha');
    try done.
  exists a. split; [done|]. split; [done|].
  intros Hsz. rewrite Ha', Hsz. reflexivity.
Qed.

Lemma address_adjacent_innermost_witness :
  exists a, address (field_b 4096) [0; 1] = Some a /\
            address (field_b 4096) [1; 1] = Some (a + 4).
Proof.
  destruct (address_adjacent_innermost (field_b 4096) [0; 1] [1; 1] 0%nat 0)
    as (a & Ha & _ & Ha').
  - vm_compute. reflexivity.
  - vm_compute. reflexivity.
  - vm_compute. reflexivity.
  - vm_compute. reflexivity.
  - reflexivity.
  - reflexivity.
  - intros [|[|k']] Hk; [contradiction|reflexivity|reflexivity].
  - exists a. split; [exact Ha|]. apply Ha'. reflexivity.
Defined.

(** C3: for the field of shape (128, 32, 8), whose axes 0, 1, 2 are
    declared in this order, the map is {0:0, 1:1, 2:2}, and each axis sits
    at the nesting depth equal to its place in the declaration. *)
Theorem physical_index_position_chain_a :
  physical_index_position chain_a =
    {[ 0%nat := 0%nat; 1%nat := 1%nat; 2%nat := 2%nat ]} /\
  nesting_depth_position chain_a = physical_index_position chain_a /\
  nesting_depth chain_a 0 = Some 0%nat /\
  nesting_depth chain_a 1 = Some 1%nat /\
  nesting_depth chain_a 2 = Some 2%nat.
Proof. repeat split; vm_compute; reflexivity. Qed.

End TestIndices.

(* ===================================================================== *)
(** * More about [get_field_info] *)
(* ===================================================================== *)

Section DescriptorContents.

(** Settling the element kind leaves the other properties alone. *)
Lemma select_field_type_keeps field info0 info rt rt' :
  select_field_type field info0 rt = (Ret info, rt') ->
  valid info = valid info0 /\
  field_source info = field_source info0 /\
  info_shape info = info_shape info0 /\
  info_dtype info = info_dtype info0 /\
  info_snode info = info_snode info0.
Proof.
  unfold select_field_type.
  destruct (n field) as [r|]; [destruct (m field) as [c|]|]; simpl;
    intros [= <- _]; done.
Qed.

(** X1: a descriptor returned for a field is marked valid and carries the
    field's shape, element type and storage-node pointer as they are; on a
    known arch a Taichi field does get one. *)
Theorem get_field_info_copies_metadata rt field :
  (forall info rt',
      get_field_info (Some field) rt = (Ret info, rt') ->
      valid info = true /\
      info_shape info = shape field /\
      info_dtype info = dtype field /\
      info_snode info = snode_ptr field) /\
  (matrix_attrs_together field ->
   cfg_arch rt ∈ known_arches ->
   exists info, get_field_info (Some field) rt = (Ret info, rt)).
Proof.
  split.
  - intros info rt' Hget. rewrite get_field_info_some in Hget.
    destruct (cfg_arch rt); try discriminate;
      apply select_field_type_keeps in Hget as (Hv & _ & Hs & Hd & Hp);
      rewrite Hv, Hs, Hd, Hp; done.
  - intros Hnm Hk.
    destruct (get_field_info_returns field rt Hnm Hk) as (info & Hget & _).
    eauto.
Qed.

Lemma get_field_info_copies_metadata_witness :
  exists info,
    get_field_info (Some matrix_field) x64_runtime = (Ret info, x64_runtime) /\
    valid info = true /\ info_shape info = [16; 32] /\
    info_dtype info = f32 /\ info_snode info = 8192.
Proof.
  destruct (get_field_info_copies_metadata x64_runtime matrix_field)
    as [Hmeta Hret].
  destruct Hret as [info Hget].
  - split; intros _; eexists; reflexivity.
  - repeat first [apply list_elem_of_here | apply list_elem_of_further].
  - exists info. split; [exact Hget|]. exact (Hmeta info x64_runtime Hget).
Defined.

(** X2: for a field, the outcome does not depend on what a fresh
    [FieldInfo()] holds: every property of the descriptor is assigned
    before it is returned. *)
Theorem get_field_info_assigns_everything arch defaults1 defaults2 field :
  (get_field_info (Some field)
     {| cfg_arch := arch; FieldInfo_defaults := defaults1 |}).1 =
  (get_field_info (Some field)
     {| cfg_arch := arch; FieldInfo_defaults := defaults2 |}).1.
Proof.
  rewrite !get_field_info_some. unfold select_field_type.
  destruct arch; simpl; try reflexivity;
    (destruct (n field) as [r|]; [destruct (m field) as [c|]|]; reflexivity).
Qed.

(** X3: an object that has [n] but no [m] gets no descriptor: on a known
    arch the call ends in an [AttributeError]; on any other arch the
    backend is rejected first. *)
Theorem get_field_info_n_without_m rt field r :
  n field = Some r -> m field = None ->
  (cfg_arch rt ∈ known_arches ->
   exists e, get_field_info (Some field) rt = (Raise e, rt) /\
             exc_class e = AttributeError) /\
  (cfg_arch rt ∉ known_arches ->
   get_field_info (Some field) rt =
     (Raise (mkExc Exception "unsupported taichi backend"), rt)).
Proof.
  intros Hn Hm. rewrite get_field_info_some. unfold known_arches. split.
  - intros Hk. exists (mkExc AttributeError "m"). split; [|done].
    destruct (cfg_arch rt);
      try (by apply select_field_type_missing_m with (r := r)).
    exfalso. repeat (apply elem_of_cons in Hk as [Hk|Hk]; [discriminate|]).
    by apply elem_of_nil in Hk.
  - intros Hk. destruct (cfg_arch rt); try reflexivity; exfalso; apply Hk;
      repeat first [apply list_elem_of_here | apply list_elem_of_further].
Qed.

Lemma get_field_info_n_without_m_witness :
  exists e,
    get_field_info (Some object_without_m) x64_runtime = (Raise e, x64_runtime) /\
    exc_class e = AttributeError.
Proof.
  apply (proj1 (get_field_info_n_without_m x64_runtime object_without_m 3
                  eq_refl eq_refl)).
  repeat first [apply list_elem_of_here | apply list_elem_of_further].
Defined.

End DescriptorContents.

(* ===================================================================== *)
(** * Which error [check_ggui_availability] raises *)
(* ===================================================================== *)

Section Diagnosis.

Lemma foreign_not_instance e :
  foreign e <-> isinstance e GGUINotAvailableException = false.
Proof.
  unfold foreign. rewrite <- not_true_iff_false, isinstance_GGUI. tauto.
Qed.

(** What escapes once the diagnosis has ended. *)
Lemma check_after_diagnose_returns env :
  GGUI_AVAILABLE env = false -> diagnose env = Ret tt ->
  check_ggui_availability env = Raise (GGUI_error msg_generic).
Proof.
  intros Hflag Hd. by rewrite check_ggui_availability_unavailable, Hd.
Qed.

Lemma check_after_diagnose_ggui env msg :
  GGUI_AVAILABLE env = false -> diagnose env = Raise (GGUI_error msg) ->
  check_ggui_availability env = Raise (GGUI_error msg).
Proof.
  intros Hflag Hd. by rewrite check_ggui_availability_unavailable, Hd.
Qed.

Lemma check_after_diagnose_foreign env e :
  GGUI_AVAILABLE env = false -> diagnose env = Raise e -> foreign e ->
  check_ggui_availability env = Raise (GGUI_error msg_generic).
Proof.
  intros Hflag Hd He%foreign_not_instance.
  by rewrite check_ggui_availability_unavailable, Hd, He.
Qed.

(** The diagnosis from the libc probe on. *)
Lemma diagnose_at_libc env :
  libc_probe_reached env ->
  diagnose env =
  (libc_ver ← try_get_loaded_libc_version env;
   if truthy_tuple libc_ver && tuple_lt (default [] libc_ver) [2; 27] then
     Raise (GGUI_error msg_outdated_os)
   else
     _ ← try_except (pip_probe env) ImportError (fun _ => Ret tt);
     Raise (GGUI_error msg_restricted)).
Proof.
  intros (taichi & tag & Ht & Hw & Hc). unfold manylinux2014_on_linux in Hc.
  unfold diagnose. rewrite Ht. simpl. rewrite Hw. simpl. rewrite Hc.
  reflexivity.
Qed.

(** The diagnosis from the pip probe on. *)
Lemma diagnose_at_pip env :
  pip_probe_reached env ->
  diagnose env =
  (_ ← try_except (pip_probe env) ImportError (fun _ => Ret tt);
   Raise (GGUI_error msg_restricted)).
Proof.
  intros (taichi & tag & ver & Ht & Hw & Hc & Hl & Hv).
  rewrite diagnose_at_libc by (exists taichi, tag; done).
  rewrite Hl. simpl. rewrite Hv. reflexivity.
Qed.

Lemma py_int_raises s e : py_int s = Raise e -> exc_class e = ValueError.
Proof.
  unfold py_int.
  repeat match goal with
         | |- context [match ?x with _ => _ end] => destruct x
         end; intros [= <-]; reflexivity.
Qed.

Lemma list_comprehension_raises {A B} (g : A -> Res B) xs e :
  list_comprehension g xs = Raise e -> exists x, x ∈ xs /\ g x = Raise e.
Proof.
  induction xs as [|x xs IH]; simpl; [discriminate|].
  destruct (g x) as [y|e'] eqn:Hx; simpl.
  - destruct (list_comprehension g xs) as [ys|e'']; simpl; [discriminate|].
    intros [= ->]. destruct IH as (x' & Hin & Hx'); [done|].
    exists x'. split; [by right|done].
  - intros [= ->]. exists x. split; [left|done].
Qed.

Lemma list_comprehension_element_raises {A B} (g : A -> Res B) xs x :
  x ∈ xs -> (forall y, g x <> Ret y) ->
  exists e x', x' ∈ xs /\ g x' = Raise e /\ list_comprehension g xs = Raise e.
Proof.
  intros Hin Hx. induction xs as [|x0 xs IH]; [by apply elem_of_nil in Hin|].
  simpl. destruct (g x0) as [y0|e0] eqn:H0; simpl.
  - apply elem_of_cons in Hin as [->|Hin]; [by destruct (Hx y0)|].
    destruct (IH Hin) as (e & x' & Hx' & Hg & Hl).
    exists e, x'. rewrite Hl. split; [by right|done].
  - exists e0, x0. split; [left|done].
Qed.

End Diagnosis.

Section ErrorRaised.

Lemma manylinux2014_on_linux_platform env tag :
  manylinux2014_on_linux env tag = true -> platform_system env = "Linux".
Proof.
  unfold manylinux2014_on_linux.
  intros [[H _]%andb_prop _]%andb_prop. by apply bool_decide_eq_true in H.
Qed.

Lemma try_get_wheel_tag_returns env module :
  exists tag, try_get_wheel_tag env module = Ret tag.
Proof.
  rewrite try_get_wheel_tag_total.
  destruct (wheel_tag_probe env module); eauto.
Qed.

(** X4: off Linux, or when the wheel found is no manylinux2014 one, the
    diagnosis has nothing to say and the generic error is raised. *)
Theorem check_ggui_availability_other_wheel env :
  GGUI_AVAILABLE env = false ->
  no_ggui_error (import_taichi env) ->
  (platform_system env <> "Linux" \/
   forall taichi tag,
     import_taichi env = Ret taichi ->
     try_get_wheel_tag env taichi = Ret tag ->
     truthy_str tag && contains "manylinux2014" (default "" tag) = false) ->
  check_ggui_availability env = Raise (GGUI_error msg_generic).
Proof.
  intros Hflag Himp Hcond.
  destruct (import_taichi env) as [taichi|e] eqn:Ht.
  - apply check_after_diagnose_returns; [done|].
    destruct (try_get_wheel_tag_returns env taichi) as [tag Hw].
    unfold diagnose. rewrite Ht. simpl. rewrite Hw. simpl.
    destruct Hcond as [Hp|Hc].
    + rewrite bool_decide_eq_false_2 by done. reflexivity.
    + rewrite <- andb_assoc, (Hc taichi tag eq_refl Hw), andb_false_r.
      reflexivity.
  - apply (check_after_diagnose_foreign env e); [done| |by apply Himp].
    unfold diagnose. by rewrite Ht.
Qed.

Lemma check_ggui_availability_other_wheel_witness :
  check_ggui_availability host_macos = Raise (GGUI_error msg_generic).
Proof.
  apply check_ggui_availability_other_wheel.
  - reflexivity.
  - intros e He. discriminate He.
  - left. intros H. discriminate H.
Defined.

(** X5: with a manylinux2014 wheel on Linux and a loaded libc older than
    2.27, the "outdated OS" error is raised, and pip is not consulted: the
    outcome is the same whatever importing pip would give. *)
Theorem check_ggui_availability_outdated_os env a b :
  GGUI_AVAILABLE env = false ->
  libc_probe_reached env ->
  try_get_loaded_libc_version env = Ret (Some [a; b]) ->
  a < 2 \/ (a = 2 /\ b < 27) ->
  forall pip,
    check_ggui_availability (with_pip pip env) =
      Raise (GGUI_error msg_outdated_os).
Proof.
  intros Hflag Hreach Hl Hold pip.
  apply check_after_diagnose_ggui; [done|].
  rewrite diagnose_at_libc by exact Hreach.
  change (try_get_loaded_libc_version (with_pip pip env))
    with (try_get_loaded_libc_version env).
  rewrite Hl. simpl.
  destruct Hold as [Ha|[-> Hb]].
  - rewrite bool_decide_eq_false_2 by lia.
    rewrite bool_decide_eq_true_2 by lia. reflexivity.
  - rewrite bool_decide_eq_true_2 by done.
    rewrite bool_decide_eq_false_2 by lia.
    rewrite bool_decide_eq_true_2 by lia. reflexivity.
Qed.

Lemma host_old_glibc_reaches_libc : libc_probe_reached host_old_glibc.
Proof.
  exists {| mod_path := ["/site-packages/taichi"]; mod_version := [1; 0; 4] |},
         (Some "cp38-cp38-manylinux2014_x86_64").
  repeat split; vm_compute; reflexivity.
Qed.

Lemma check_ggui_availability_outdated_os_witness :
  check_ggui_availability
    (with_pip (Raise (mkExc ModuleNotFoundError "pip")) host_old_glibc) =
  Raise (GGUI_error msg_outdated_os).
Proof.
  apply (check_ggui_availability_outdated_os host_old_glibc 2 17).
  - reflexivity.
  - apply host_old_glibc_reaches_libc.
  - vm_compute. reflexivity.
  - right. split; [reflexivity|]. reflexivity.
Defined.

(** X6: once the pip probe is reached and the version of pip reads as a
    tuple of integers, that tuple decides: below (20, 3, 0) the "outdated
    pip" error naming the version is raised, otherwise the "restricted
    version" error. *)
Theorem check_ggui_availability_pip_version env pv ver :
  GGUI_AVAILABLE env = false ->
  pip_probe_reached env ->
  import_pip env = Ret pv ->
  list_comprehension py_int (split_on "."%char pv) = Ret ver ->
  check_ggui_availability env =
    Raise (GGUI_error (if tuple_lt ver [20; 3; 0]
                       then msg_outdated_pip pv else msg_restricted)).
Proof.
  intros Hflag Hreach Hpip Hver.
  apply check_after_diagnose_ggui; [done|].
  rewrite diagnose_at_pip by done.
  unfold pip_probe. rewrite Hpip. cbn [mbind Res_bind]. rewrite Hver.
  cbn [mbind Res_bind]. destruct (tuple_lt ver [20; 3; 0]); reflexivity.
Qed.

Lemma pip_probe_reached_with_pip pip env :
  pip_probe_reached env -> pip_probe_reached (with_pip pip env).
Proof. intros H. exact H. Qed.

Lemma check_ggui_availability_pip_version_witness :
  check_ggui_availability host_old_pip =
    Raise (GGUI_error (msg_outdated_pip "19.0.3")) /\
  check_ggui_availability host_recent_pip = Raise (GGUI_error msg_restricted).
Proof.
  split.
  - apply (check_ggui_availability_pip_version host_old_pip "19.0.3" [19; 0; 3]).
    + reflexivity.
    + apply pip_probe_reached_with_pip, host_without_pip_reaches_pip.
    + reflexivity.
    + vm_compute. reflexivity.
  - apply (check_ggui_availability_pip_version host_recent_pip "21.1.2" [21; 1; 2]).
    + reflexivity.
    + apply pip_probe_reached_with_pip, host_without_pip_reaches_pip.
    + reflexivity.
    + vm_compute. reflexivity.
Defined.

Lemma tuple_lt_two a b :
  tuple_lt [a; b] [20; 3; 0] = true <-> a < 20 \/ (a = 20 /\ b <= 3).
Proof.
  simpl. repeat case_bool_decide; split; intros ?; try lia; try done.
Qed.

Lemma tuple_lt_three a b c :
  tuple_lt [a; b; c] [20; 3; 0] = true <->
  a < 20 \/ (a = 20 /\ (b < 3 \/ (b = 3 /\ c < 0))).
Proof.
  simpl. repeat case_bool_decide; split; intros ?; try lia; try done.
Qed.

(** X7: where the pip threshold lies.  A version of two components (a, b)
    counts as outdated up to and including (20, 3), since the tuple (20, 3)
    is smaller than (20, 3, 0); a version of three components counts as
    outdated strictly below (20, 3, 0).  Otherwise the probe returns. *)
Theorem pip_probe_threshold env pv :
  import_pip env = Ret pv ->
  (forall a b,
     list_comprehension py_int (split_on "."%char pv) = Ret [a; b] ->
     (pip_probe env = Raise (GGUI_error (msg_outdated_pip pv)) <->
      a < 20 \/ (a = 20 /\ b <= 3)) /\
     (pip_probe env = Ret tt <-> ~ (a < 20 \/ (a = 20 /\ b <= 3)))) /\
  (forall a b c,
     list_comprehension py_int (split_on "."%char pv) = Ret [a; b; c] ->
     (pip_probe env = Raise (GGUI_error (msg_outdated_pip pv)) <->
      a < 20 \/ (a = 20 /\ (b < 3 \/ (b = 3 /\ c < 0)))) /\
     (pip_probe env = Ret tt <->
      ~ (a < 20 \/ (a = 20 /\ (b < 3 \/ (b = 3 /\ c < 0)))))).
Proof.
  intros Hpip. split.
  - intros a b Hver. unfold pip_probe. rewrite Hpip. cbn [mbind Res_bind].
    rewrite Hver. cbn [mbind Res_bind]. rewrite <- tuple_lt_two.
    destruct (tuple_lt [a; b] [20; 3; 0]); split; split; done.
  - intros a b c Hver. unfold pip_probe. rewrite Hpip. cbn [mbind Res_bind].
    rewrite Hver. cbn [mbind Res_bind]. rewrite <- tuple_lt_three.
    destruct (tuple_lt [a; b; c] [20; 3; 0]); split; split; done.
Qed.

Lemma pip_probe_threshold_witness :
  pip_probe host_short_pip = Raise (GGUI_error (msg_outdated_pip "20.3")).
Proof.
  apply (proj1 (pip_probe_threshold host_short_pip "20.3" eq_refl) 20 3).
  - vm_compute. reflexivity.
  - right. split; [reflexivity|]. intros H. discriminate H.
Defined.

(** X8: a pip version with a component that is no integer literal (a
    pre-release such as 20.3b1) makes [int] fail inside the pip probe; the
    failure is swallowed and the generic error is raised, not the
    "restricted version" one. *)
Theorem check_ggui_availability_pip_not_numeric env pv x :
  GGUI_AVAILABLE env = false ->
  pip_probe_reached env ->
  import_pip env = Ret pv ->
  x ∈ split_on "."%char pv ->
  (forall z, py_int x <> Ret z) ->
  check_ggui_availability env = Raise (GGUI_error msg_generic).
Proof.
  intros Hflag Hreach Hpip Hin Hx.
  destruct (list_comprehension_element_raises py_int _ x Hin Hx)
    as (e & x' & _ & Hx' & Hl).
  apply py_int_raises in Hx'.
  apply (check_after_diagnose_foreign env e); [done| |].
  - rewrite diagnose_at_pip by done.
    unfold pip_probe. rewrite Hpip. cbn [mbind Res_bind]. rewrite Hl.
    cbn [mbind Res_bind]. unfold try_except, try_clauses.
    cbn [dispatch]. unfold isinstance. rewrite Hx'. reflexivity.
  - unfold foreign. rewrite Hx'. discriminate.
Qed.

Lemma check_ggui_availability_pip_not_numeric_witness :
  check_ggui_availability host_prerelease_pip = Raise (GGUI_error msg_generic).
Proof.
  apply (check_ggui_availability_pip_not_numeric host_prerelease_pip
           "20.3b1" "3b1").
  - reflexivity.
  - apply pip_probe_reached_with_pip, host_without_pip_reaches_pip.
  - reflexivity.
  - vm_compute. right. left.
  - intros z H. vm_compute in H. discriminate H.
Defined.

End ErrorRaised.

(* ===================================================================== *)
(** * The version [try_get_loaded_libc_version] reads *)
(* ===================================================================== *)

Section VersionText.
Implicit Types (s d v rest : string) (c : ascii).

Lemma isdigit_not_space c : isdigit c = true -> int_isspace c = false.
Proof.
  unfold isdigit, int_isspace. generalize (nat_of_ascii c). intros k.
  intros [H1%Nat.leb_le H2%Nat.leb_le]%andb_prop.
  apply orb_false_intro.
  - apply andb_false_iff. right. apply Nat.leb_gt. lia.
  - apply Nat.eqb_neq. lia.
Qed.

Lemma isdigit_not_dot c : isdigit c = true -> c <> "."%char.
Proof. intros H ->. vm_compute in H. discriminate H. Qed.

Lemma digit_value_nonneg c : isdigit c = true -> 0 <= digit_value c.
Proof.
  unfold isdigit, digit_value. intros [H1%Nat.leb_le _]%andb_prop. lia.
Qed.

Lemma span_digits_spec s d rest :
  span_digits s = (d, rest) -> all_digits d = true /\ s = d +:+ rest.
Proof.
  revert d rest. induction s as [|c s IH]; intros d rest; simpl.
  - intros [= <- <-]. done.
  - destruct (isdigit c) eqn:Hc.
    + destruct (span_digits s) as [d0 rest0]. intros [= <- <-].
      destruct (IH d0 rest0 eq_refl) as [Hd ->]. simpl. by rewrite Hc, Hd.
    + intros [= <- <-]. done.
Qed.

Lemma match_version_spec s v rest :
  match_version s = Some (v, rest) -> version_text v.
Proof.
  unfold match_version.
  destruct (span_digits s) as [d1 r1] eqn:H1.
  destruct d1 as [|c1 d1]; [done|]. destruct r1 as [|c r2]; [done|].
  destruct (decide (c = "."%char)) as [->|Hne].
  - destruct (span_digits r2) as [d2 r3] eqn:H2.
    destruct d2 as [|c2 d2]; [done|]. intros [= <- _].
    apply span_digits_spec in H1 as [Hd1 _].
    apply span_digits_spec in H2 as [Hd2 _].
    exists (String c1 d1), (String c2 d2). done.
  - destruct c as [[] [] [] [] [] [] [] []]; try done.
Qed.

Lemma findall_version_spec fuel s v :
  v ∈ findall_version fuel s -> version_text v.
Proof.
  revert s. induction fuel as [|fuel IH]; intros s; simpl.
  - by intros ?%elem_of_nil.
  - destruct (match_version s) as [[v0 rest]|] eqn:Hm.
    + intros [->|Hin]%elem_of_cons; [by eapply match_version_spec|].
      by eapply IH.
    + destruct s as [|c s']; [by intros ?%elem_of_nil|]. apply IH.
Qed.

Lemma split_on_digits d : all_digits d = true -> split_on "."%char d = [d].
Proof.
  induction d as [|c d IH]; simpl; [done|].
  intros [Hc Hd]%andb_prop.
  rewrite bool_decide_eq_false_2 by (by apply isdigit_not_dot).
  by rewrite IH.
Qed.

Lemma split_on_version d1 d2 :
  all_digits d1 = true -> all_digits d2 = true ->
  split_on "."%char (d1 +:+ "." +:+ d2) = [d1; d2].
Proof.
  intros H1 H2. induction d1 as [|c d1 IH]; simpl.
  - by rewrite split_on_digits.
  - simpl in H1. apply andb_prop in H1 as [Hc H1].
    rewrite bool_decide_eq_false_2 by (by apply isdigit_not_dot).
    by rewrite IH.
Qed.

Lemma parse_digits_all_digits d acc prev :
  all_digits d = true -> d <> "" \/ prev = true -> 0 <= acc ->
  exists z, parse_digits d acc prev = Some z /\ 0 <= z.
Proof.
  revert acc prev. induction d as [|c d IH]; intros acc prev Hd Hne Hacc.
  - destruct Hne as [? | ->]; [done|]. simpl. eauto.
  - simpl in Hd. apply andb_prop in Hd as [Hc Hd]. simpl. rewrite Hc.
    apply IH; [done|by right|]. pose proof (digit_value_nonneg c Hc). lia.
Qed.

Lemma lstrip_digit c d : isdigit c = true -> lstrip (String c d) = String c d.
Proof. intros Hc. simpl. by rewrite (isdigit_not_space c Hc). Qed.

Lemma all_digits_list d :
  all_digits d = true <-> Forall (fun c => isdigit c = true) (list_ascii_of_string d).
Proof.
  induction d as [|c d IH]; simpl.
  - split; [constructor|done].
  - rewrite andb_true_iff, Forall_cons, IH. done.
Qed.

Lemma strip_digits d : all_digits d = true -> strip d = d.
Proof.
  intros Hd. destruct d as [|c d]; [reflexivity|].
  assert (Hc : isdigit c = true).
  { simpl in Hd. by apply andb_prop in Hd as [? _]. }
  unfold strip. rewrite lstrip_digit by exact Hc.
  unfold rstrip.
  apply all_digits_list in Hd. set (l := list_ascii_of_string (String c d)) in *.
  assert (Hl : l <> []) by done.
  apply Forall_rev in Hd.
  destruct (rev l) as [|c' l'] eqn:Hr.
  { apply (f_equal (@rev _)) in Hr. rewrite rev_involutive in Hr. done. }
  simpl. apply Forall_cons in Hd as [Hc' _].
  rewrite (isdigit_not_space c' Hc').
  change (String c' (string_of_list_ascii l'))
    with (string_of_list_ascii (c' :: l')).
  rewrite list_ascii_of_string_of_list_ascii, <- Hr, rev_involutive.
  unfold l. apply string_of_list_ascii_of_string.
Qed.

(** [int] accepts every non-empty run of digits and gives a natural
    number. *)
Lemma py_int_digits d :
  all_digits d = true -> d <> "" ->
  exists z, py_int d = Ret z /\ 0 <= z.
Proof.
  intros Hd Hne. unfold py_int. rewrite strip_digits by done.
  destruct (parse_digits_all_digits d 0 false Hd) as (z & Hz & Hpos);
    [by left|done|].
  destruct d as [|c d]; [done|].
  simpl in Hd. apply andb_prop in Hd as [Hc _].
  destruct c as [[] [] [] [] [] [] [] []]; try (vm_compute in Hc; discriminate Hc);
    rewrite Hz; eauto.
Qed.

Lemma version_text_parses v :
  version_text v ->
  exists a b, list_comprehension py_int (split_on "."%char v) = Ret [a; b] /\
              0 <= a /\ 0 <= b.
Proof.
  intros (d1 & d2 & -> & H1 & Hn1 & H2 & Hn2).
  rewrite split_on_version by done.
  destruct (py_int_digits d1 H1 Hn1) as (a & Ha & ?).
  destruct (py_int_digits d2 H2 Hn2) as (b & Hb & ?).
  exists a, b. cbn [list_comprehension]. rewrite Ha, Hb. done.
Qed.

End VersionText.

Section LibcVersion.

(** On Linux with a readable memory map the probe returns: [None] when no
    token names a libc or the first such token shows no version, and
    otherwise the two numbers of the first version text in that token. *)
Lemma libc_version_on_linux env content :
  platform_system env = "Linux" ->
  read_proc_self_maps env = Ret content ->
  exists r,
    try_get_loaded_libc_version env = Ret r /\
    match libc_tokens content with
    | [] => r = None
    | p :: _ =>
        match re_findall_version p with
        | [] => r = None
        | v0 :: _ =>
            exists a b,
              list_comprehension py_int (split_on "."%char v0) = Ret [a; b] /\
              r = Some [a; b] /\ 0 <= a /\ 0 <= b
        end
    end.
Proof.
  intros Hp Hr. unfold try_get_loaded_libc_version.
  rewrite bool_decide_eq_true_2 by done. cbn [py_assert mbind Res_bind].
  rewrite Hr. cbn [mbind Res_bind]. fold (libc_tokens content).
  destruct (libc_tokens content) as [|p ps]; [by eexists|].
  cbn [next mbind Res_bind].
  destruct (re_findall_version p) as [|v0 vs] eqn:Hv; [by eexists|].
  assert (Hv0 : version_text v0).
  { apply (findall_version_spec (S (String.length p)) p).
    unfold re_findall_version in Hv. rewrite Hv. left. }
  destruct (version_text_parses v0 Hv0) as (a & b & Hab & Ha & Hb).
  rewrite Hab. exists (Some [a; b]). split; [reflexivity|].
  exists a, b. done.
Qed.

Lemma try_get_loaded_libc_version_raises_aux env e :
  platform_system env = "Linux" -> read_proc_self_maps env = Raise e ->
  try_get_loaded_libc_version env = Raise e.
Proof.
  intros Hp Hr. unfold try_get_loaded_libc_version.
  rewrite bool_decide_eq_true_2 by done. cbn [py_assert mbind Res_bind].
  by rewrite Hr.
Qed.

(** X9: [try_get_loaded_libc_version] raises in two cases only: off Linux
    its assertion fails, and on Linux a failure to read the memory map of
    the process comes out unchanged.  Parsing never fails. *)
Theorem try_get_loaded_libc_version_raises env e :
  try_get_loaded_libc_version env = Raise e <->
  (platform_system env <> "Linux" /\ e = mkExc AssertionError "") \/
  (platform_system env = "Linux" /\ read_proc_self_maps env = Raise e).
Proof.
  destruct (decide (platform_system env = "Linux")) as [Hp|Hp].
  - destruct (read_proc_self_maps env) as [content|e'] eqn:Hr.
    + destruct (libc_version_on_linux env content Hp Hr) as (r & -> & _).
      split; [done|]. intros [[? _]|[_ ?]]; done.
    + unfold try_get_loaded_libc_version.
      rewrite bool_decide_eq_true_2 by done. cbn [py_assert mbind Res_bind].
      rewrite Hr. cbn [mbind Res_bind].
      split; [intros [= ->]; by right|].
      intros [[? _]|[_ [= ->]]]; done.
  - unfold try_get_loaded_libc_version.
    rewrite bool_decide_eq_false_2 by done. cbn [py_assert mbind Res_bind].
    split; [intros [= <-]; by left|].
    intros [[_ ->]|[? _]]; done.
Qed.

Lemma try_get_loaded_libc_version_raises_witness :
  try_get_loaded_libc_version host_macos = Raise (mkExc AssertionError "") /\
  try_get_loaded_libc_version host_unreadable_maps =
    Raise (mkExc OSError "/proc/self/maps").
Proof.
  split.
  - apply try_get_loaded_libc_version_raises. left.
    split; [|reflexivity]. intros H. discriminate H.
  - apply try_get_loaded_libc_version_raises. right.
    split; reflexivity.
Defined.

(** X10: on Linux with a readable memory map, the result is [None] exactly
    when no token of the map contains [libc-], or the first token that does
    shows no text of the form digits, dot, digits. *)
Theorem try_get_loaded_libc_version_none env content :
  platform_system env = "Linux" ->
  read_proc_self_maps env = Ret content ->
  (try_get_loaded_libc_version env = Ret None <->
   match libc_tokens content with
   | [] => True
   | p :: _ => re_findall_version p = []
   end).
Proof.
  intros Hp Hr.
  destruct (libc_version_on_linux env content Hp Hr) as (r & -> & Hcase).
  destruct (libc_tokens content) as [|p ps]; [by subst|].
  destruct (re_findall_version p) as [|v0 vs]; [by subst|].
  destruct Hcase as (a & b & _ & -> & _). done.
Qed.

Lemma try_get_loaded_libc_version_none_witness :
  try_get_loaded_libc_version host_unversioned_glibc = Ret None.
Proof.
  apply (try_get_loaded_libc_version_none host_unversioned_glibc
           "7f0a-7f0b r-xp 00000000 08:01 131 /usr/lib/libc.so.6").
  - reflexivity.
  - reflexivity.
  - vm_compute. exact I.
Defined.

(** X11: a version that [try_get_loaded_libc_version] returns is a tuple of
    exactly two integers, neither negative. *)
Theorem try_get_loaded_libc_version_pair env t :
  try_get_loaded_libc_version env = Ret (Some t) ->
  exists a b, t = [a; b] /\ 0 <= a /\ 0 <= b.
Proof.
  intros Hret.
  destruct (decide (platform_system env = "Linux")) as [Hp|Hp].
  - destruct (read_proc_self_maps env) as [content|e'] eqn:Hr.
    + destruct (libc_version_on_linux env content Hp Hr) as (r & Hr' & Hcase).
      rewrite Hr' in Hret. injection Hret as ->.
      destruct (libc_tokens content) as [|p ps]; [done|].
      destruct (re_findall_version p) as [|v0 vs]; [done|].
      destruct Hcase as (a & b & _ & [= ->] & ? & ?). eauto.
    + assert (H : try_get_loaded_libc_version env = Raise e').
      { apply try_get_loaded_libc_version_raises_aux; done. }
      congruence.
  - assert (H : try_get_loaded_libc_version env = Raise (mkExc AssertionError "")).
    { unfold try_get_loaded_libc_version.
      by rewrite bool_decide_eq_false_2 by done. }
    congruence.
Qed.

End LibcVersion.

Section ErrorRaisedFurther.

Lemma libc_probe_reached_linux env :
  libc_probe_reached env -> platform_system env = "Linux".
Proof.
  intros (taichi & tag & _ & _ & Hc).
  by eapply manylinux2014_on_linux_platform.
Qed.

Lemma libc_version_raise_on_linux env e :
  platform_system env = "Linux" ->
  try_get_loaded_libc_version env = Raise e ->
  read_proc_self_maps env = Raise e.
Proof.
  intros Hp Hraise.
  destruct (read_proc_self_maps env) as [content|e'] eqn:Hr.
  - destruct (libc_version_on_linux env content Hp Hr) as (r & Hret & _).
    congruence.
  - rewrite (try_get_loaded_libc_version_raises_aux env e' Hp Hr) in Hraise.
    congruence.
Qed.

(** X12: when the libc probe is reached and the memory map of the process
    cannot be read, the read error is swallowed and the generic error is
    raised. *)
Theorem check_ggui_availability_maps_unreadable env e :
  GGUI_AVAILABLE env = false ->
  libc_probe_reached env ->
  read_proc_self_maps env = Raise e ->
  foreign e ->
  check_ggui_availability env = Raise (GGUI_error msg_generic).
Proof.
  intros Hflag Hreach Hr He.
  apply (check_after_diagnose_foreign env e); [done| |done].
  rewrite diagnose_at_libc by done.
  rewrite (try_get_loaded_libc_version_raises_aux env e); [done| |done].
  by apply libc_probe_reached_linux.
Qed.

Lemma check_ggui_availability_maps_unreadable_witness :
  check_ggui_availability host_unreadable_maps = Raise (GGUI_error msg_generic).
Proof.
  apply (check_ggui_availability_maps_unreadable host_unreadable_maps
           (mkExc OSError "/proc/self/maps")).
  - reflexivity.
  - exact host_old_glibc_reaches_libc.
  - reflexivity.
  - intros H. discriminate H.
Defined.

(** What the pip probe followed by [except ImportError: pass] and the
    raise of line 128 comes to. *)
Lemma pip_stage_outcome env :
  no_ggui_error (import_pip env) ->
  exists e,
    (_ ← try_except (pip_probe env) ImportError (fun _ => Ret tt);
     Raise (GGUI_error msg_restricted) : Res unit) = Raise e /\
    (foreign e \/ e = GGUI_error msg_restricted \/
     exists pv, import_pip env = Ret pv /\
                e = GGUI_error (msg_outdated_pip pv)).
Proof.
  intros Hpip. unfold pip_probe, try_except, try_clauses.
  destruct (import_pip env) as [pv|e] eqn:Hi; cbn [mbind Res_bind dispatch].
  - destruct (list_comprehension py_int (split_on "."%char pv)) as [ver|e]
      eqn:Hl; cbn [mbind Res_bind dispatch].
    + destruct (tuple_lt ver [20; 3; 0]); cbn [mbind Res_bind dispatch].
      * eexists. split; [reflexivity|]. right. right. by exists pv.
      * eexists. split; [reflexivity|]. right. by left.
    + apply list_comprehension_raises in Hl as (x & _ & Hx%py_int_raises).
      unfold isinstance. rewrite Hx. cbn [issubclass mbind Res_bind].
      exists e. split; [reflexivity|]. left. unfold foreign. by rewrite Hx.
  - specialize (Hpip e eq_refl).
    destruct (isinstance e ImportError); cbn [mbind Res_bind].
    + eexists. split; [reflexivity|]. right. by left.
    + exists e. split; [reflexivity|]. by left.
Qed.

(** X13: when [GGUI_AVAILABLE] is false and none of the imports and reads
    itself raises a [GGUINotAvailableException], the error raised carries
    one of four messages: the generic one, the "restricted version" one,
    the "outdated OS" one, or the "outdated pip" one naming the version of
    the pip that was imported. *)
Theorem check_ggui_availability_messages env :
  GGUI_AVAILABLE env = false ->
  no_ggui_error (import_taichi env) ->
  no_ggui_error (read_proc_self_maps env) ->
  no_ggui_error (import_pip env) ->
  exists msg,
    check_ggui_availability env = Raise (GGUI_error msg) /\
    (msg = msg_generic \/ msg = msg_restricted \/ msg = msg_outdated_os \/
     exists pv, import_pip env = Ret pv /\ msg = msg_outdated_pip pv).
Proof.
  intros Hflag Htaichi Hmaps Hpip.
  assert (Hgen : forall e, diagnose env = Raise e -> foreign e ->
            exists msg,
              check_ggui_availability env = Raise (GGUI_error msg) /\
              (msg = msg_generic \/ msg = msg_restricted \/
               msg = msg_outdated_os \/
               exists pv, import_pip env = Ret pv /\ msg = msg_outdated_pip pv)).
  { intros e Hd He. exists msg_generic. split; [|by left].
    by apply (check_after_diagnose_foreign env e). }
  destruct (import_taichi env) as [taichi|e] eqn:Ht.
  2: { apply (Hgen e); [|by apply Htaichi].
       unfold diagnose. by rewrite Ht. }
  destruct (try_get_wheel_tag_returns env taichi) as [tag Hw].
  destruct (manylinux2014_on_linux env tag) eqn:Hc.
  2: { exists msg_generic. split; [|by left].
       apply check_after_diagnose_returns; [done|].
       unfold manylinux2014_on_linux in Hc.
       unfold diagnose. rewrite Ht. simpl. rewrite Hw. simpl. by rewrite Hc. }
  assert (Hreach : libc_probe_reached env) by (by exists taichi, tag).
  pose proof (diagnose_at_libc env Hreach) as Hd.
  destruct (try_get_loaded_libc_version env) as [libc_ver|e] eqn:Hl.
  2: { apply (Hgen e); [by rewrite Hd|]. apply Hmaps.
       apply libc_version_raise_on_linux; [|done].
       by apply libc_probe_reached_linux. }
  cbn [mbind Res_bind] in Hd.
  destruct (truthy_tuple libc_ver && tuple_lt (default [] libc_ver) [2; 27]).
  { exists msg_outdated_os. split; [|by right; right; left].
    by apply check_after_diagnose_ggui. }
  destruct (pip_stage_outcome env Hpip) as (e & He & Hcases).
  rewrite He in Hd.
  destruct Hcases as [Hf|[->|(pv & Hpv & ->)]].
  - by apply (Hgen e).
  - exists msg_restricted. split; [|by right; left].
    by apply check_after_diagnose_ggui.
  - exists (msg_outdated_pip pv). split; [|right; right; right; by exists pv].
    by apply check_after_diagnose_ggui.
Qed.

Lemma check_ggui_availability_messages_witness :
  exists msg,
    check_ggui_availability host_old_glibc = Raise (GGUI_error msg) /\
    (msg = msg_generic \/ msg = msg_restricted \/ msg = msg_outdated_os \/
     exists pv, import_pip host_old_glibc = Ret pv /\ msg = msg_outdated_pip pv).
Proof.
  apply check_ggui_availability_messages.
  - reflexivity.
  - intros e He. discriminate He.
  - intros e He. discriminate He.
  - intros e He. discriminate He.
Defined.

(** X14: [try_get_wheel_tag] never raises, and it yields a tag exactly when
    [wheel.metadata] imports, the module has a first path entry, the file
    [<path>-<version joined by dots>.dist-info/WHEEL] is read, and its
    metadata has a [Tag]; in every other case it yields [None]. *)
Theorem try_get_wheel_tag_tag env module :
  (exists r, try_get_wheel_tag env module = Ret r) /\
  (forall tag,
     try_get_wheel_tag env module = Ret (Some tag) <->
     exists p ps meta,
       import_wheel_metadata env = Ret tt /\
       mod_path module = p :: ps /\
       read_pkg_info env
         (p +:+ "-" +:+ String.concat "." (map pretty (mod_version module))
            +:+ ".dist-info/WHEEL") = Ret meta /\
       meta !! "Tag" = Some tag).
Proof.
  split; [apply try_get_wheel_tag_returns|].
  intros tag. rewrite try_get_wheel_tag_total.
  unfold wheel_tag_probe, first_path.
  destruct (import_wheel_metadata env) as [[]|e] eqn:Hi;
    cbn [mbind Res_bind].
  2: { split; [done|]. intros (? & ? & ? & ? & _). done. }
  destruct (mod_path module) as [|p ps] eqn:Hp; cbn [mbind Res_bind].
  { split; [done|]. intros (? & ? & ? & _ & ? & _). done. }
  destruct (read_pkg_info env _) as [meta|e] eqn:Hm; cbn [mbind Res_bind].
  - split.
    + intros [= Htag]. exists p, ps, meta. done.
    + intros (p' & ps' & meta' & _ & [= <- <-] & Hm' & Htag).
      rewrite Hm in Hm'. injection Hm' as <-. by rewrite Htag.
  - split; [done|].
    intros (p' & ps' & meta' & _ & [= <- <-] & Hm' & _).
    rewrite Hm in Hm'. done.
Qed.

Lemma try_get_wheel_tag_tag_witness :
  try_get_wheel_tag host_without_pip
    {| mod_path := ["/site-packages/taichi"]; mod_version := [1; 0; 4] |} =
  Ret (Some "cp38-cp38-manylinux2014_x86_64").
Proof.
  apply (proj2 (try_get_wheel_tag_tag host_without_pip _)).
  exists "/site-packages/taichi", [],
    ({[ "Tag" := "cp38-cp38-manylinux2014_x86_64" ]} : gmap string string).
  repeat split; vm_compute; reflexivity.
Defined.

End ErrorRaisedFurther.

(* ===================================================================== *)
(** * More about the layout indexer *)
(* ===================================================================== *)

Section LayoutFurther.

(** X15: a field declared by its shape alone has the identity map on as
    many virtual indices as the shape has entries, whatever the extents. *)
Theorem physical_index_position_of_shape shape (k : nat) :
  physical_index_position (of_shape shape) !! k =
  if decide (k < length shape)%nat then Some k else None.
Proof.
  rewrite physical_index_position_lookup, active_axes_of_shape.
  case_decide as Hk.
  - apply lookup_seq. split; [done|lia].
  - apply lookup_ge_None. rewrite length_seq. lia.
Qed.


(** X17: on a well-formed layout two different index tuples on the field
    have different addresses: no two elements share storage. *)
Theorem address_distinct f idx1 idx2 :
  wf_layout f = true ->
  in_bounds (chain f) idx1 = true ->
  in_bounds (chain f) idx2 = true ->
  idx1 <> idx2 ->
  exists a1 a2,
    address f idx1 = Some a1 /\ address f idx2 = Some a2 /\ a1 <> a2.
Proof.
  intros Hwf Hb1 Hb2 Hne.
  destruct (address_is_Some f idx1) as [a1 Ha1]; [by apply in_bounds_length|].
  destruct (address_is_Some f idx2) as [a2 Ha2]; [by apply in_bounds_length|].
  exists a1, a2. split; [done|]. split; [done|].
  intros ->. apply Hne. by eapply address_inj.
Qed.

Lemma address_distinct_witness :
  exists a1 a2,
    address (field_b 4096) [3; 5] = Some a1 /\
    address (field_b 4096) [5; 3] = Some a2 /\ a1 <> a2.
Proof.
  apply address_distinct.
  - vm_compute. reflexivity.
  - vm_compute. reflexivity.
  - vm_compute. reflexivity.
  - intros H. discriminate H.
Defined.

End LayoutFurther.

Lemma try_get_loaded_libc_version_pair_witness :
  exists a b, [2; 31] = [a; b] /\ 0 <= a /\ 0 <= b.
Proof.
  apply (try_get_loaded_libc_version_pair host_without_pip [2; 31]).
  vm_compute. reflexivity.
Defined.

(* ===================================================================== *)
(** * Writing a value and reading it back *)
(* ===================================================================== *)

Section RoundTrip.






End RoundTrip.

(* ===================================================================== *)
(** * [get_field_info] called twice *)
(* ===================================================================== *)

Section Twice.
Import Heap.

Lemma writes_only_ret {A} l (a : A) : writes_only l (mret a : Cmd A).
Proof. intros st. simpl. repeat split; eauto. Qed.

Lemma writes_only_raise {A} l e : writes_only l (raise e : Cmd A).
Proof. intros st. simpl. repeat split; eauto. Qed.

Lemma writes_only_bind {A B} l (c : Cmd A) (k : A -> Cmd B) :
  writes_only l c -> (forall a, writes_only l (k a)) ->
  writes_only l (c ≫= k).
Proof.
  intros Hc Hk st. unfold mbind, Cmd_bind.
  destruct (Hc st) as (Hn & Hcfg & Hf & Hobj & Hinfo).
  destruct (c st) as [[a|e] st1]; simpl in *; [|done].
  destruct (Hk a st1) as (Hn' & Hcfg' & Hf' & Hobj' & Hinfo').
  repeat split; try congruence.
  - intros l0 Hl0. rewrite Hobj', Hobj by done. done.
  - intros i Hi. destruct (Hinfo i Hi) as [i1 Hi1]. eauto.
Qed.

Lemma writes_only_if {A} l (b : bool) (c1 c2 : Cmd A) :
  writes_only l c1 -> writes_only l c2 -> writes_only l (if b then c1 else c2).
Proof. destruct b; auto. Qed.

Lemma writes_only_setattr_info l assign : writes_only l (setattr_info l assign).
Proof.
  intros st. unfold setattr_info.
  destruct (objects st !! l) as [[f|i|a]|] eqn:Hl; simpl;
    repeat split; eauto; try congruence.
  - intros l0 Hl0. by rewrite lookup_insert_ne.
  - intros i0 _. rewrite lookup_insert_eq. eauto.
Qed.

Lemma writes_only_default_cfg_arch l : writes_only l default_cfg_arch.
Proof.
  intros st. unfold default_cfg_arch.
  destruct (objects st !! cfg_ref st) as [[f|i|a]|]; simpl;
    repeat split; eauto.
Qed.

Lemma writes_only_getattr_field {A} l fl (attr : Field -> option A) name :
  writes_only l (getattr_field fl attr name).
Proof.
  intros st. unfold getattr_field.
  destruct (objects st !! fl) as [[f|i|a]|]; simpl;
    [destruct (attr f)|..]; simpl; repeat split; eauto.
Qed.

Lemma writes_only_hasattr_field {A} l fl (attr : Field -> option A) :
  writes_only l (hasattr_field fl attr).
Proof.
  intros st. unfold hasattr_field.
  destruct (objects st !! fl) as [[f|i|a]|]; simpl; repeat split; eauto.
Qed.

Ltac writes_only_tac :=
  repeat first
    [ apply writes_only_bind; [| intros ?]
    | apply writes_only_if
    | apply writes_only_ret
    | apply writes_only_raise
    | apply writes_only_setattr_info
    | apply writes_only_default_cfg_arch
    | apply writes_only_getattr_field
    | apply writes_only_hasattr_field ].

Lemma writes_only_select_field_source l :
  writes_only l (select_field_source l).
Proof. unfold select_field_source. writes_only_tac. Qed.

(** Filling the descriptor in writes to the descriptor alone. *)
Lemma writes_only_describe_into field l : writes_only l (describe_into field l).
Proof.
  unfold describe_into. destruct field as [fl|]; [|writes_only_tac].
  apply writes_only_bind; [apply writes_only_setattr_info|]. intros _.
  apply writes_only_bind; [apply writes_only_select_field_source|]. intros _.
  writes_only_tac.
Qed.

Lemma related_ret {A} field l l' (Q : A -> A -> Prop) a b :
  Q a b -> related field l l' Q (mret a : Cmd A) (mret b).
Proof. intros HQ sA sB Hs. simpl. done. Qed.

Lemma related_raise {A} field l l' (Q : A -> A -> Prop) e :
  related field l l' Q (raise e : Cmd A) (raise e).
Proof. intros sA sB Hs. simpl. done. Qed.

Lemma related_bind {A B} field l l' (Q : A -> A -> Prop)
    (Q' : B -> B -> Prop) (cA cB : Cmd A) (kA kB : A -> Cmd B) :
  related field l l' Q cA cB ->
  (forall a b, Q a b -> related field l l' Q' (kA a) (kB b)) ->
  related field l l' Q' (cA ≫= kA) (cB ≫= kB).
Proof.
  intros Hc Hk sA sB Hs. unfold mbind, Cmd_bind.
  destruct (Hc sA sB Hs) as [Hs' Hr].
  destruct (cA sA) as [[a|e] sA'], (cB sB) as [[b|e'] sB']; simpl in *;
    try done.
  by apply Hk.
Qed.

Lemma related_if {A} field l l' (Q : A -> A -> Prop) (b : bool)
    (cA1 cA2 cB1 cB2 : Cmd A) :
  related field l l' Q cA1 cB1 -> related field l l' Q cA2 cB2 ->
  related field l l' Q (if b then cA1 else cA2) (if b then cB1 else cB2).
Proof. destruct b; auto. Qed.

Lemma related_setattr_info field l l' assign :
  related field l l' eq (setattr_info l assign) (setattr_info l' assign).
Proof.
  intros sA sB Hs. pose proof Hs as (Hcfg & Hc & Hf & Hinfo & Hl & Hl' & Hfl).
  unfold setattr_info. rewrite Hinfo.
  destruct (objects sA !! l) as [[f|i|a]|] eqn:HA; simpl; try done.
  split; [|done]. unfold similar. simpl.
  split; [done|]. split.
  { rewrite !lookup_insert_ne by done. done. }
  split.
  { intros fl Hfield. destruct (Hfl fl Hfield) as [? ?].
    rewrite !lookup_insert_ne by done. by apply Hf. }
  split; [by rewrite !lookup_insert_eq|]. done.
Qed.

Lemma related_default_cfg_arch field l l' :
  related field l l' eq default_cfg_arch default_cfg_arch.
Proof.
  intros sA sB Hs. pose proof Hs as (Hcfg & Hc & _).
  unfold default_cfg_arch. rewrite Hcfg, Hc.
  destruct (objects sA !! cfg_ref sA) as [[f|i|a]|]; simpl; done.
Qed.

Lemma related_getattr_field {A} fl l l' (attr : Field -> option A) name :
  related (Some fl) l l' eq (getattr_field fl attr name)
    (getattr_field fl attr name).
Proof.
  intros sA sB Hs. pose proof Hs as (_ & _ & Hf & _).
  unfold getattr_field. rewrite (Hf fl eq_refl).
  destruct (objects sA !! fl) as [[f|i|a]|]; simpl;
    [destruct (attr f)|..]; simpl; done.
Qed.

Lemma related_hasattr_field {A} fl l l' (attr : Field -> option A) :
  related (Some fl) l l' eq (hasattr_field fl attr) (hasattr_field fl attr).
Proof.
  intros sA sB Hs. pose proof Hs as (_ & _ & Hf & _).
  unfold hasattr_field. rewrite (Hf fl eq_refl).
  destruct (objects sA !! fl) as [[f|i|a]|]; simpl; done.
Qed.

Ltac related_prim :=
  first
    [ apply related_setattr_info
    | apply related_default_cfg_arch
    | apply related_getattr_field
    | apply related_hasattr_field
    | apply related_raise
    | apply related_ret; done ].

Ltac related_tac :=
  repeat first
    [ related_prim
    | eapply related_bind; [solve [related_prim] | intros ? ? <-]
    | apply related_if ].

Lemma related_select_field_source field l l' :
  related field l l' eq (select_field_source l) (select_field_source l').
Proof. unfold select_field_source. related_tac. Qed.

(** Filling two descriptors in from similar stores gives the same
    outcome and descriptors that hold the same. *)
Lemma related_describe_into field l l' :
  related field l l' (fun a b => a = l /\ b = l')
    (describe_into field l) (describe_into field l').
Proof.
  unfold describe_into. destruct field as [fl|].
  - eapply related_bind; [apply related_setattr_info|]. intros _ _ _.
    eapply related_bind; [apply related_select_field_source|]. intros _ _ _.
    related_tac.
  - related_tac.
Qed.

Lemma get_field_info_unfold field st :
  get_field_info field st =
  describe_into field (next_ref st) (new_FieldInfo st).2.
Proof. reflexivity. Qed.

Lemma new_FieldInfo_lookup st l :
  objects (new_FieldInfo st).2 !! l =
  if decide (next_ref st = l) then Some (FieldInfoObj (fresh_info st))
  else objects st !! l.
Proof. simpl. apply lookup_insert. Qed.

(** C9: [get_field_info] touches no object that exists when it is called:
    the field and the configuration it reads are the same afterwards, and
    all it writes to is the descriptor it creates.  Called twice in a row
    with the same field, absent or not, it ends both times the same way:
    with the same exception, or with two distinct descriptors that hold
    the same properties. *)
Theorem get_field_info_twice st field :
  (cfg_ref st < next_ref st)%nat ->
  (forall fl, field = Some fl -> (fl < next_ref st)%nat) ->
  let first := get_field_info field st in
  let second := get_field_info field first.2 in
  (forall l, (l < next_ref st)%nat ->
             objects first.2 !! l = objects st !! l /\
             objects second.2 !! l = objects st !! l) /\
  cfg_ref second.2 = cfg_ref st /\
  match first.1, second.1 with
  | Ret l1, Ret l2 =>
      l1 <> l2 /\
      exists i, objects second.2 !! l1 = Some (FieldInfoObj i) /\
                objects second.2 !! l2 = Some (FieldInfoObj i)
  | Raise e1, Raise e2 => e1 = e2
  | _, _ => False
  end.
Proof.
  intros Hcfg Hfield first second. subst first second.
  rewrite (get_field_info_unfold field st).
  set (l := next_ref st). set (sA0 := (new_FieldInfo st).2).
  assert (Hll : l = next_ref st) by reflexivity.
  destruct (writes_only_describe_into field l sA0)
    as (HnA & HcA & HfA & HoA & HiA).
  set (rA := describe_into field l sA0) in *.
  rewrite (get_field_info_unfold field rA.2).
  assert (Hl' : next_ref rA.2 = S l) by (rewrite HnA; reflexivity).
  rewrite Hl'. set (sB0 := (new_FieldInfo rA.2).2).
  destruct (writes_only_describe_into field (S l) sB0)
    as (HnB & HcB & HfB & HoB & HiB).
  assert (Hsim : similar field l (S l) sA0 sB0).
  { unfold similar. subst sB0. rewrite !new_FieldInfo_lookup, Hl'.
    change (cfg_ref (new_FieldInfo rA.2).2) with (cfg_ref rA.2).
    change (cfg_ref sA0) with (cfg_ref st). rewrite HcA.
    change (cfg_ref sA0) with (cfg_ref st).
    split; [done|]. split.
    { case_decide; [lia|]. apply HoA. lia. }
    split.
    { intros fl Hfl. specialize (Hfield fl Hfl).
      rewrite new_FieldInfo_lookup, Hl'.
      case_decide; [lia|]. apply HoA. lia. }
    split.
    { case_decide; [|done]. subst sA0.
      rewrite new_FieldInfo_lookup. case_decide; [|done].
      rewrite HfA. reflexivity. }
    split; [lia|]. split; [lia|].
    intros fl Hfl. specialize (Hfield fl Hfl). lia. }
  destruct (related_describe_into field l (S l) sA0 sB0 Hsim) as [Hsim' Hres].
  fold rA in Hsim', Hres. set (rB := describe_into field (S l) sB0) in *.
  assert (HframeA : forall l0, (l0 < l)%nat ->
            objects rA.2 !! l0 = objects st !! l0).
  { intros l0 Hl0. rewrite HoA by lia. subst sA0.
    rewrite new_FieldInfo_lookup. case_decide; [lia|done]. }
  assert (HframeB : forall l0, (l0 < S l)%nat ->
            objects rB.2 !! l0 = objects rA.2 !! l0).
  { intros l0 Hl0. rewrite HoB by lia. subst sB0.
    rewrite new_FieldInfo_lookup. case_decide; [lia|done]. }
  split; [|split].
  - intros l0 Hl0. split; [by apply HframeA|].
    rewrite HframeB by lia. by apply HframeA.
  - rewrite HcB. change (cfg_ref sB0) with (cfg_ref rA.2).
    rewrite HcA. reflexivity.
  - destruct rA.1 as [l1|e1], rB.1 as [l2|e2]; try done.
    destruct Hres as [-> ->]. split; [lia|].
    destruct (HiA (fresh_info st)) as [i Hi].
    { subst sA0. rewrite new_FieldInfo_lookup. case_decide; done. }
    exists i. split.
    + rewrite HframeB by lia. exact Hi.
    + destruct Hsim' as (_ & _ & _ & Hinfo & _). rewrite Hinfo. exact Hi.
Qed.

Lemma get_field_info_twice_witness :
  let first := get_field_info (Some 1%nat) sample_store in
  let second := get_field_info (Some 1%nat) first.2 in
  objects second.2 !! 1%nat = objects sample_store !! 1%nat /\
  match first.1, second.1 with
  | Ret l1, Ret l2 =>
      l1 <> l2 /\
      exists i, objects second.2 !! l1 = Some (FieldInfoObj i) /\
                objects second.2 !! l2 = Some (FieldInfoObj i)
  | Raise e1, Raise e2 => e1 = e2
  | _, _ => False
  end.
Proof.
  assert (Hcfg : (cfg_ref sample_store < next_ref sample_store)%nat).
  { simpl. lia. }
  assert (Hfield : forall fl, Some 1%nat = Some fl ->
                              (fl < next_ref sample_store)%nat).
  { intros fl [= <-]. simpl. lia. }
  destruct (get_field_info_twice sample_store (Some 1%nat) Hcfg Hfield)
    as (Hframe & _ & Hres).
  split; [|exact Hres].
  apply (Hframe 1%nat). simpl. lia.
Defined.

(* ------------------------------------------------------------------- *)
(** ** The descriptor built on the store is the one described by value *)

Lemma step_new_FieldInfo st :
  new_FieldInfo st = (Ret (next_ref st), described_store st (fresh_info st)).
Proof. reflexivity. Qed.

Lemma step_setattr_info st assign i :
  setattr_info (next_ref st) assign (described_store st i) =
  (Ret tt, described_store st (assign i)).
Proof.
  unfold setattr_info, described_store, with_objects. simpl.
  rewrite lookup_insert_eq, insert_insert_eq. reflexivity.
Qed.

Lemma step_default_cfg_arch st a i :
  objects st !! cfg_ref st = Some (ConfigObj a) ->
  cfg_ref st <> next_ref st ->
  default_cfg_arch (described_store st i) = (Ret a, described_store st i).
Proof.
  intros Hcfg Hne. unfold default_cfg_arch, described_store. simpl.
  rewrite lookup_insert_ne by done. by rewrite Hcfg.
Qed.

Lemma step_select_field_source st a i :
  objects st !! cfg_ref st = Some (ConfigObj a) ->
  cfg_ref st <> next_ref st ->
  select_field_source (next_ref st) (described_store st i) =
  match a with
  | cuda => (Ret tt, described_store st (set_field_source TaichiCuda i))
  | x64 | arm64 => (Ret tt, described_store st (set_field_source TaichiX64 i))
  | vulkan => (Ret tt, described_store st (set_field_source TaichiVulkan i))
  | other_arch _ =>
      (Raise (mkExc Exception "unsupported taichi backend"),
       described_store st i)
  end.
Proof.
  intros Hcfg Hne.
  pose proof (step_default_cfg_arch st a i Hcfg Hne) as Hstep.
  unfold select_field_source, mbind, Cmd_bind.
  destruct a; rewrite Hstep; simpl; rewrite ?Hstep; simpl;
    rewrite ?Hstep; simpl; rewrite ?Hstep; simpl;
    rewrite ?step_setattr_info; reflexivity.
Qed.

Lemma step_getattr_field {A} st fl f (attr : Field -> option A) name i :
  objects st !! fl = Some (FieldObj f) ->
  fl <> next_ref st ->
  getattr_field fl attr name (described_store st i) =
  (match attr f with
   | Some v => Ret v
   | None => Raise (mkExc AttributeError name)
   end, described_store st i).
Proof.
  intros Hfield Hne. unfold getattr_field, described_store. simpl.
  rewrite lookup_insert_ne by done. rewrite Hfield.
  by destruct (attr f).
Qed.

Lemma step_hasattr_field {A} st fl f (attr : Field -> option A) i :
  objects st !! fl = Some (FieldObj f) ->
  fl <> next_ref st ->
  hasattr_field fl attr (described_store st i) =
  (Ret (hasattr (attr f)), described_store st i).
Proof.
  intros Hfield Hne. unfold hasattr_field, described_store. simpl.
  rewrite lookup_insert_ne by done. by rewrite Hfield.
Qed.

(** For a field object, the store version returns a new descriptor
    holding what [Utils.get_field_info] describes, or raises what it
    raises. *)
Lemma get_field_info_on_store_field st a fl f :
  objects st !! cfg_ref st = Some (ConfigObj a) ->
  cfg_ref st <> next_ref st ->
  objects st !! fl = Some (FieldObj f) ->
  fl <> next_ref st ->
  match (Utils.get_field_info (Some f)
           {| cfg_arch := a; FieldInfo_defaults := fresh_info st |}).1 with
  | Ret i =>
      get_field_info (Some fl) st = (Ret (next_ref st), described_store st i)
  | Raise e => (get_field_info (Some fl) st).1 = Raise e
  end.
Proof.
  intros Hcfg Hcne Hfield Hfne.
  pose proof (fun i => step_select_field_source st a i Hcfg Hcne) as Hsrc.
  pose proof (fun A attr name i =>
                @step_getattr_field A st fl f attr name i Hfield Hfne) as Hget.
  pose proof (fun A attr i =>
                @step_hasattr_field A st fl f attr i Hfield Hfne) as Hhas.
  rewrite get_field_info_some. simpl.
  unfold get_field_info, describe_into, mbind, Cmd_bind.
  rewrite step_new_FieldInfo, step_setattr_info, Hsrc.
  unfold Utils.select_field_type, Utils.getattr, Utils.hasattr.
  destruct a; simpl; try reflexivity;
    rewrite !Hget; simpl; rewrite step_setattr_info;
    rewrite !Hget; simpl; rewrite step_setattr_info;
    rewrite !Hget; simpl; rewrite step_setattr_info;
    rewrite Hhas; unfold Utils.hasattr;
    (destruct (n f) as [r|] eqn:Hn; simpl;
     rewrite ?step_setattr_info; rewrite ?Hget, ?Hn; simpl;
     rewrite ?step_setattr_info; rewrite ?Hget; simpl;
     [destruct (m f) as [c|] eqn:Hm; simpl;
      rewrite ?step_setattr_info; reflexivity
     | rewrite ?step_setattr_info; reflexivity]).
Qed.

(** With no field, likewise. *)
Lemma get_field_info_on_store_none st :
  get_field_info None st =
  (Ret (next_ref st),
   described_store st (set_valid false (fresh_info st))).
Proof.
  unfold get_field_info, describe_into, mbind, Cmd_bind.
  rewrite step_new_FieldInfo, step_setattr_info. reflexivity.
Qed.

End Twice.
